(** * Attendee identity resolution and day aggregation of [calendar_agent.py]

    A shallow embedding of the name heuristics, the From-header parser, the
    attendee extraction and the per-day attendee aggregation of
    [src/calendar_agent.py], with the properties the specification states
    about them.

    Conventions of the embedding.
    - Python [str] is [string]; the development is exact on 7-bit text
      (addresses, header values).  Characters above 127 are carried along
      as uncased symbols that are neither digits nor white space.
    - An absent value read with [d.get(k, '')] is the empty string, as in
      the source, where every test on it is a truthiness test.
    - A JSON object of the calendar payload (an attendee, the organizer) is
      a [gmap string string] of its string-valued fields.
    - A Python [dict] whose iteration order is observed is an association
      list in insertion order ([dict_set] keeps the position of a key that
      is already there and appends a new one).
    - A returned [dict] with values of several types is a [pyval] tree. *)

From Stdlib Require Import Ascii String NArith Sorting.Sorted.
From stdpp Require Import base list strings pretty gmap sorting.

Local Open Scope string_scope.
Local Open Scope list_scope.
Local Open Scope nat_scope.

(** ** Characters *)

Module Char.

Definition code (c : ascii) : N := N_of_ascii c.

Definition between (lo hi : N) (c : ascii) : bool :=
  (lo <=? code c)%N && (code c <=? hi)%N.

(** [\d] on 7-bit text. *)
Definition is_digit : ascii -> bool := between 48 57.
(** [[a-z]] and [str.islower] on a 7-bit character. *)
Definition is_lower : ascii -> bool := between 97 122.
(** [[A-Z]] and [str.isupper] on a 7-bit character. *)
Definition is_upper : ascii -> bool := between 65 90.

(** White space removed by [str.strip()]: TAB, LF, VT, FF, CR, the four
    separators FS, GS, RS, US, and the space. *)
Definition is_space (c : ascii) : bool :=
  between 9 13 c || between 28 31 c || (code c =? 32)%N.

Definition to_upper (c : ascii) : ascii :=
  if is_lower c then ascii_of_N (code c - 32) else c.

Definition to_lower (c : ascii) : ascii :=
  if is_upper c then ascii_of_N (code c + 32) else c.

Definition dot : ascii := ".".
Definition underscore : ascii := "_".
Definition hyphen : ascii := "-".
Definition at_sign : ascii := "@".
Definition newline : ascii := "010".
Definition squote : ascii := "'".
Definition dquote : ascii := "034".

(** The class [[._-]]. *)
Definition is_separator (c : ascii) : bool :=
  Ascii.eqb c dot || Ascii.eqb c underscore || Ascii.eqb c hyphen.

(** The two quote characters, the set handed to [str.strip] when a name
    is unquoted. *)
Definition is_quote (c : ascii) : bool :=
  Ascii.eqb c dquote || Ascii.eqb c squote.

End Char.

(** ** Python string operations *)

Module Str.

Fixpoint upper (s : string) : string :=
  match s with
  | EmptyString => EmptyString
  | String c r => String (Char.to_upper c) (upper r)
  end.

Fixpoint lower (s : string) : string :=
  match s with
  | EmptyString => EmptyString
  | String c r => String (Char.to_lower c) (lower r)
  end.

(** [str.title()]: a cased character is upper-cased when the character
    before it is not cased and lower-cased when it is. *)
Fixpoint title_from (previous_is_cased : bool) (s : string) : string :=
  match s with
  | EmptyString => EmptyString
  | String c r =>
      if Char.is_lower c then
        String (if previous_is_cased then c else Char.to_upper c) (title_from true r)
      else if Char.is_upper c then
        String (if previous_is_cased then Char.to_lower c else c) (title_from true r)
      else String c (title_from false r)
  end.

Definition title (s : string) : string := title_from false s.

(** [c in s] for a one-character [c]. *)
Fixpoint contains_char (c : ascii) (s : string) : bool :=
  match s with
  | EmptyString => false
  | String d r => Ascii.eqb d c || contains_char c r
  end.

(** [s.split(sep)] for a one-character separator: never the empty list. *)
Fixpoint split (sep : ascii) (s : string) : list string :=
  match s with
  | EmptyString => [EmptyString]
  | String c r =>
      if Ascii.eqb c sep then EmptyString :: split sep r
      else match split sep r with
           | [] => [String c EmptyString]
           | p :: ps => String c p :: ps
           end
  end.

(** [sep.join(parts)]. *)
Fixpoint join (sep : string) (parts : list string) : string :=
  match parts with
  | [] => EmptyString
  | [p] => p
  | p :: ps => p +:+ sep +:+ join sep ps
  end.

Definition nonempty (s : string) : bool :=
  match s with EmptyString => false | _ => true end.

(** Reversal, used to work from the right end of a string. *)
Fixpoint rev_onto (acc s : string) : string :=
  match s with
  | EmptyString => acc
  | String c r => rev_onto (String c acc) r
  end.

Definition rev (s : string) : string := rev_onto EmptyString s.

Fixpoint drop_while (p : ascii -> bool) (s : string) : string :=
  match s with
  | EmptyString => EmptyString
  | String c r => if p c then drop_while p r else s
  end.

(** Removal of the longest suffix made of characters of the class [p]. *)
Definition rstrip (p : ascii -> bool) (s : string) : string :=
  rev (drop_while p (rev s)).

Definition lstrip (p : ascii -> bool) (s : string) : string := drop_while p s.

(** [s.strip()] and [s.strip(chars)]. *)
Definition strip (p : ascii -> bool) (s : string) : string :=
  rstrip p (lstrip p s).

(** [re.sub(r'C+$', '', s)] for a character class [C] that excludes the
    line feed: [$] matches at the end of the string and also just before
    a line feed that ends it, so the run that is removed is the one at the
    end, or the one before the final line feed. *)
Definition sub_trailing (p : ascii -> bool) (s : string) : string :=
  match rev s with
  | String c r =>
      if Ascii.eqb c Char.newline
      then rev (String c (drop_while p r))
      else rstrip p s
  | EmptyString => EmptyString
  end.

(** [s.startswith(t)]. *)
Fixpoint startswith (t s : string) : bool :=
  match t, s with
  | EmptyString, _ => true
  | String a t', String b s' => Ascii.eqb a b && startswith t' s'
  | String _ _, EmptyString => false
  end.

(** [s.find(t)] as an option: the least index at which [t] occurs. *)
Fixpoint find (t s : string) : option nat :=
  if startswith t s then Some 0
  else match s with
       | EmptyString => None
       | String _ r => S <$> find t r
       end.

(** [t in s] for strings. *)
Definition contains (t s : string) : bool :=
  match find t s with Some _ => true | None => false end.

(** The slices [s[:n]] and [s[n:]]. *)
Fixpoint take (n : nat) (s : string) : string :=
  match n, s with
  | S n', String c r => String c (take n' r)
  | _, _ => EmptyString
  end.

Fixpoint drop (n : nat) (s : string) : string :=
  match n, s with
  | S n', String _ r => drop n' r
  | _, _ => s
  end.

(** [re.search(r'[a-z][A-Z]', s)] as a boolean. *)
Fixpoint search_lower_upper (s : string) : bool :=
  match s with
  | String a (String b _ as r) =>
      (Char.is_lower a && Char.is_upper b) || search_lower_upper r
  | _ => false
  end.

(** [re.findall(r'[A-Z][a-z]*|[a-z]+', s)]: a scan from the left in which
    [current] is the match in progress, if any.  An upper-case letter opens
    a match, lower-case letters extend the open match or open one, any other
    character closes it. *)
Definition flush (current : option string) (rest : list string) : list string :=
  match current with
  | Some w => rev w :: rest
  | None => rest
  end.

Fixpoint findall_words_from (current : option string) (s : string) : list string :=
  match s with
  | EmptyString => flush current []
  | String c r =>
      if Char.is_upper c then
        flush current (findall_words_from (Some (String c EmptyString)) r)
      else if Char.is_lower c then
        match current with
        | Some w => findall_words_from (Some (String c w)) r
        | None => findall_words_from (Some (String c EmptyString)) r
        end
      else flush current (findall_words_from None r)
  end.

Definition findall_words (s : string) : list string :=
  findall_words_from None s.

End Str.

(** ** The e-mail name heuristic *)

(** The two [re.sub] calls that open [_extract_name_from_email]. *)
Definition strip_suffixes (local_part : string) : string :=
  Str.sub_trailing Char.is_separator (Str.sub_trailing Char.is_digit local_part).

(** [' '.join(part.title() for part in parts if part)]. *)
Definition join_titled (parts : list string) : string :=
  Str.join " " (Str.title <$> List.filter Str.nonempty parts).

(** The [for prefix in common_prefixes] loop of [_smart_split_name]: the
    value returned from inside the loop, if any. *)
Definition common_prefixes : list string := ["mr"; "ms"; "dr"; "prof"].

Fixpoint try_prefixes (prefixes : list string) (name name_lower : string)
  : option string :=
  match prefixes with
  | [] => None
  | prefix :: rest =>
      if Str.startswith prefix name_lower
         && (String.length prefix <? String.length name)%nat
      then Some (Str.title prefix +:+ " "
                 +:+ Str.title (Str.drop (String.length prefix) name))
      else try_prefixes rest name name_lower
  end.

(** The [for loc in common_locations] loop of [_smart_split_name]. *)
Definition common_locations : list string :=
  ["in"; "san"; "los"; "new"; "north"; "south"; "east"; "west"].

Fixpoint try_locations (locations : list string) (name name_lower : string)
  : option string :=
  match locations with
  | [] => None
  | loc :: rest =>
      if Str.contains loc name_lower
         && (String.length loc + 3 <? String.length name)%nat
      then match Str.find loc name_lower with
           | Some idx =>
               if (2 <? idx)%nat
               then Some (Str.title (Str.take idx name) +:+ " "
                          +:+ Str.title (Str.drop idx name))
               else try_locations rest name name_lower
           | None => try_locations rest name name_lower
           end
      else try_locations rest name name_lower
  end.

(** [CalendarAgent._smart_split_name]. *)
Definition _smart_split_name (name : string) : string :=
  if Str.search_lower_upper name then Str.join " " (Str.findall_words name)
  else
    let name_lower := Str.lower name in
    match try_prefixes common_prefixes name name_lower with
    | Some r => r
    | None =>
        match try_locations common_locations name name_lower with
        | Some r => r
        | None => name
        end
    end.

(** What [_extract_name_from_email] returns from its dot branch, given the
    parts of the split: two parts are kept as they are, a one-character
    first part as an initial; three or more are filtered and joined. *)
Definition dot_branch (parts : list string) : string :=
  match parts with
  | [first; last] =>
      if (String.length first =? 1)%nat
      then Str.upper first +:+ " " +:+ Str.title last
      else Str.title first +:+ " " +:+ Str.title last
  | _ => join_titled parts
  end.

(** The body of [CalendarAgent._extract_name_from_email] once the local
    part is cut off: the classifier of the specification. *)
Definition classify (local_part : string) : string :=
  let local_part := strip_suffixes local_part in
  if Str.contains_char Char.dot local_part then
    dot_branch (Str.split Char.dot local_part)
  else if Str.contains_char Char.underscore local_part then
    join_titled (Str.split Char.underscore local_part)
  else if Str.contains_char Char.hyphen local_part then
    join_titled (Str.split Char.hyphen local_part)
  else _smart_split_name (Str.title local_part).

(** [email.split('@')[0]]. *)
Definition local_part_of (email : string) : string :=
  match Str.split Char.at_sign email with
  | p :: _ => p
  | [] => EmptyString
  end.

(** [CalendarAgent._extract_name_from_email]. *)
Definition _extract_name_from_email (email : string) : string :=
  if Str.nonempty email then classify (local_part_of email) else "Unknown".

(** ** Attendee records *)

(** The dataclass [AttendeeInfo]. *)
Record AttendeeInfo := Build_AttendeeInfo_fields {
  name : string;
  email : string;
  display_name : string
}.

(** [AttendeeInfo._extract_name_from_email], the method of the dataclass:
    the same text as the agent's method up to the last branch, which only
    title-cases a single word. *)
Definition AttendeeInfo_extract_name_from_email (email : string) : string :=
  if Str.nonempty email then
    let local_part := strip_suffixes (local_part_of email) in
    if Str.contains_char Char.dot local_part then
      dot_branch (Str.split Char.dot local_part)
    else if Str.contains_char Char.underscore local_part then
      join_titled (Str.split Char.underscore local_part)
    else if Str.contains_char Char.hyphen local_part then
      join_titled (Str.split Char.hyphen local_part)
    else Str.title local_part
  else "Unknown".

(** The constructor call [AttendeeInfo(name=..., email=...)] followed by
    [__post_init__]. *)
Definition new_AttendeeInfo (name email : string) : AttendeeInfo :=
  {| name := name;
     email := email;
     display_name :=
       if Str.nonempty name then name
       else if Str.nonempty email then AttendeeInfo_extract_name_from_email email
       else "Unknown" |}.

(** ** Attendee extraction from an event *)

(** [obj.get(key, '')] on a JSON object of the payload. *)
Definition get_str (obj : gmap string string) (key : string) : string :=
  default "" (obj !! key).

(** The part of a calendar event that [extract_attendee_info] reads: the
    keys [organizer] and [attendees], each possibly missing. *)
Record event := {
  ev_organizer : option (gmap string string);
  ev_attendees : option (list (gmap string string))
}.

(** One turn of the [for i, attendee in enumerate(attendees)] loop:
    [None] is the [continue], [Some] is the record that is appended. *)
Definition resolve_attendee (attendee : gmap string string) : option AttendeeInfo :=
  let email := get_str attendee "email" in
  let name := get_str attendee "displayName" in
  let name := if Str.nonempty name then name else get_str attendee "name" in
  let name := if Str.nonempty name then name else get_str attendee "cn" in
  if Str.nonempty email then
    let name := if Str.nonempty name then name else _extract_name_from_email email in
    Some (new_AttendeeInfo name email)
  else None.

Definition append_resolved (attendees_info : list AttendeeInfo)
    (attendee : gmap string string) : list AttendeeInfo :=
  match resolve_attendee attendee with
  | Some info => attendees_info ++ [info]
  | None => attendees_info
  end.

(** The organizer part of [extract_attendee_info]: name and e-mail. *)
Definition resolve_organizer (organizer_info : gmap string string) : string * string :=
  let organizer_email := get_str organizer_info "email" in
  let organizer_name := get_str organizer_info "displayName" in
  let organizer_name :=
    if Str.nonempty organizer_name then organizer_name
    else get_str organizer_info "name" in
  let organizer_name :=
    if negb (Str.nonempty organizer_name) && Str.nonempty organizer_email
    then _extract_name_from_email organizer_email
    else organizer_name in
  (organizer_name, organizer_email).

(** [CalendarAgent.extract_attendee_info]: the attendee records, the
    organizer's name and the organizer's e-mail. *)
Definition extract_attendee_info (ev : event)
  : list AttendeeInfo * string * string :=
  let '(organizer_name, organizer_email) :=
    resolve_organizer (default ∅ (ev_organizer ev)) in
  let attendees_info :=
    fold_left append_resolved (default [] (ev_attendees ev)) [] in
  (attendees_info, organizer_name, organizer_email).

(** ** The From-header parser *)

Definition lt_sign : ascii := "<".
Definition gt_sign : ascii := ">".
Definition lparen : ascii := "(".
Definition rparen : ascii := ")".

(** The body of the [for header in headers] loop of
    [get_contact_name_from_gmail_api] once the header is a From header:
    [Some] is a [return], [None] lets the loop go on. *)
Definition parse_from_header (from_field email : string) : option string :=
  if Str.contains_char lt_sign from_field && Str.contains_char gt_sign from_field then
    let name_part :=
      Str.strip Char.is_space (hd "" (Str.split lt_sign from_field)) in
    if Str.nonempty name_part && negb (String.eqb name_part email)
    then Some (Str.strip Char.is_quote name_part)
    else None
  else if Str.contains_char lparen from_field && Str.contains_char rparen from_field then
    let name_part :=
      Str.strip Char.is_space
        (hd "" (Str.split rparen (nth 1 (Str.split lparen from_field) ""))) in
    if Str.nonempty name_part && negb (String.eqb name_part email)
    then Some name_part
    else None
  else None.

(** The first [return] reached by a loop whose turns are [body]. *)
Fixpoint first_return {A B} (body : A -> option B) (l : list A) : option B :=
  match l with
  | [] => None
  | x :: r => match body x with Some y => Some y | None => first_return body r end
  end.

Definition scan_header (email : string) (header : gmap string string) : option string :=
  if String.eqb (Str.lower (get_str header "name")) "from"
  then parse_from_header (get_str header "value") email
  else None.

(** [get_contact_name_from_gmail_api].  The mailbox is outside: [None] for
    [gmail_service] is the service that could not be built; the service
    maps the address to the header lists of the messages it found, or to
    [None] when a call raises. *)
Definition get_contact_name_from_gmail_api
    (gmail_service : option (string -> option (list (list (gmap string string)))))
    (email : string) : option string :=
  match gmail_service with
  | None => None
  | Some fetch =>
      match fetch email with
      | None => None
      | Some messages => first_return (first_return (scan_header email)) messages
      end
  end.

(** ** Attendee extraction with look-ups *)

Section Enhanced.

(** The two services of the agent, [None] for a service that could not be
    built.  The directory look-up is taken as a whole: it answers with a
    name, or with [None] when it finds nothing or the call fails. *)
Variable people_service : option (string -> option string).
Variable gmail_service :
  option (string -> option (list (list (gmap string string)))).

Definition get_contact_name_from_people_api (email : string) : option string :=
  match people_service with
  | None => None
  | Some lookup => lookup email
  end.

(** [if api_name: name = api_name]: a look-up result replaces the name only
    when it is a non-empty string. *)
Definition take_if_found (found : option string) (name : string) : string :=
  match found with
  | Some n => if Str.nonempty n then n else name
  | None => name
  end.

(** One turn of the attendee loop of [extract_attendee_info_enhanced]. *)
Definition resolve_attendee_enhanced (attendee : gmap string string)
  : option AttendeeInfo :=
  let email := get_str attendee "email" in
  let name := get_str attendee "displayName" in
  let name := if Str.nonempty name then name else get_str attendee "name" in
  let name := if Str.nonempty name then name else get_str attendee "cn" in
  if Str.nonempty email then
    let name :=
      if negb (Str.nonempty name) && bool_decide (is_Some people_service)
      then take_if_found (get_contact_name_from_people_api email) name
      else name in
    let name :=
      if negb (Str.nonempty name) && bool_decide (is_Some gmail_service)
      then take_if_found (get_contact_name_from_gmail_api gmail_service email) name
      else name in
    let name := if Str.nonempty name then name else _extract_name_from_email email in
    Some (new_AttendeeInfo name email)
  else None.

Definition append_resolved_enhanced (attendees_info : list AttendeeInfo)
    (attendee : gmap string string) : list AttendeeInfo :=
  match resolve_attendee_enhanced attendee with
  | Some info => attendees_info ++ [info]
  | None => attendees_info
  end.

Definition resolve_organizer_enhanced (organizer_info : gmap string string)
  : string * string :=
  let organizer_email := get_str organizer_info "email" in
  let organizer_name := get_str organizer_info "displayName" in
  let organizer_name :=
    if Str.nonempty organizer_name then organizer_name
    else get_str organizer_info "name" in
  let organizer_name :=
    if negb (Str.nonempty organizer_name) && Str.nonempty organizer_email
       && bool_decide (is_Some people_service)
    then take_if_found (get_contact_name_from_people_api organizer_email) organizer_name
    else organizer_name in
  let organizer_name :=
    if negb (Str.nonempty organizer_name) && Str.nonempty organizer_email
    then _extract_name_from_email organizer_email
    else organizer_name in
  (organizer_name, organizer_email).

(** [CalendarAgent.extract_attendee_info_enhanced]. *)
Definition extract_attendee_info_enhanced (ev : event)
  : list AttendeeInfo * string * string :=
  let '(organizer_name, organizer_email) :=
    resolve_organizer_enhanced (default ∅ (ev_organizer ev)) in
  let attendees_info :=
    fold_left append_resolved_enhanced (default [] (ev_attendees ev)) [] in
  (attendees_info, organizer_name, organizer_email).

End Enhanced.

(** ** Meetings and the day aggregate *)

(** The part of a [datetime] that the aggregate reads. *)
Record datetime := { dt_hour : nat; dt_minute : nat }.

Definition digit_char (n : nat) : ascii := ascii_of_nat (48 + n mod 10).

(** [dt.strftime('%H:%M')]. *)
Definition strftime_HM (dt : datetime) : string :=
  String (digit_char (dt_hour dt / 10)) (String (digit_char (dt_hour dt))
    (String ":" (String (digit_char (dt_minute dt / 10))
      (String (digit_char (dt_minute dt)) "")))).

(** The dataclass [MeetingInfo]. *)
Record MeetingInfo := {
  meeting_title : string;
  person_names : list string;
  original_description : string;
  meeting_id : string;
  start_time : option datetime;
  end_time : option datetime;
  attendees : list AttendeeInfo;
  attendee_emails : list string;
  location : string;
  organizer_name : string;
  organizer_email : string;
  organizer : string
}.

Definition get_attendee_display_names (m : MeetingInfo) : list string :=
  display_name <$> attendees m.

Definition get_attendee_emails (m : MeetingInfo) : list string :=
  List.filter Str.nonempty (email <$> attendees m).

(** Values of the dictionaries the agent returns. *)
#[local] Set Warnings "-register-all".
Inductive pyval :=
| PStr (s : string)
| PInt (n : nat)
| PList (l : list pyval)
| PDict (d : list (string * pyval)).

(** The dataclass [DayEventsInfo]. *)
Record DayEventsInfo := {
  date : string;
  total_events : nat;
  meetings : list MeetingInfo;
  summary_info : list (string * pyval)
}.

(** *** Dictionaries in insertion order *)

Section Dict.
Context {V : Type}.

Fixpoint dict_get (k : string) (d : list (string * V)) : option V :=
  match d with
  | [] => None
  | (k', v) :: r => if String.eqb k' k then Some v else dict_get k r
  end.

(** [d[k] = v]. *)
Fixpoint dict_set (k : string) (v : V) (d : list (string * V)) : list (string * V) :=
  match d with
  | [] => [(k, v)]
  | (k', v') :: r =>
      if String.eqb k' k then (k, v) :: r else (k', v') :: dict_set k v r
  end.

Definition dict_keys (d : list (string * V)) : list string := fst <$> d.
Definition dict_values (d : list (string * V)) : list V := snd <$> d.

End Dict.

(** *** The aggregation loops of [get_attendee_info_for_day] *)

(** The three dictionaries the loops update. *)
Record agg_state := {
  attendee_frequency : list (string * nat);
  attendee_name_mapping : list (string * string);
  meeting_attendee_mapping : list (string * pyval)
}.

Definition empty_agg : agg_state :=
  {| attendee_frequency := []; attendee_name_mapping := [];
     meeting_attendee_mapping := [] |}.

Definition attendee_detail (attendee : AttendeeInfo) : pyval :=
  PDict [("name", PStr (display_name attendee)); ("email", PStr (email attendee))].

(** One turn of [for attendee in meeting.attendees]. *)
Definition attendee_turn (acc : list pyval * agg_state) (attendee : AttendeeInfo)
  : list pyval * agg_state :=
  let '(attendee_details, st) := acc in
  let attendee_details := attendee_details ++ [attendee_detail attendee] in
  if Str.nonempty (email attendee) then
    (attendee_details,
     {| attendee_frequency :=
          dict_set (email attendee)
            (default 0 (dict_get (email attendee) (attendee_frequency st)) + 1)
            (attendee_frequency st);
        attendee_name_mapping :=
          dict_set (email attendee) (display_name attendee)
            (attendee_name_mapping st);
        meeting_attendee_mapping := meeting_attendee_mapping st |})
  else (attendee_details, st).

(** The dictionary stored under the meeting's title. *)
Definition meeting_entry (attendee_details : list pyval) (meeting : MeetingInfo) : pyval :=
  PDict [("attendees", PList attendee_details);
         ("attendee_names", PList (PStr <$> get_attendee_display_names meeting));
         ("attendee_emails", PList (PStr <$> get_attendee_emails meeting));
         ("organizer_name", PStr (organizer_name meeting));
         ("organizer_email", PStr (organizer_email meeting));
         ("time", PStr (match start_time meeting with
                        | Some t => strftime_HM t
                        | None => "Unknown"
                        end))].

(** One turn of [for meeting in day_events.meetings]. *)
Definition meeting_turn (st : agg_state) (meeting : MeetingInfo) : agg_state :=
  let '(attendee_details, st) :=
    fold_left attendee_turn (attendees meeting) ([], st) in
  {| attendee_frequency := attendee_frequency st;
     attendee_name_mapping := attendee_name_mapping st;
     meeting_attendee_mapping :=
       dict_set (meeting_title meeting) (meeting_entry attendee_details meeting)
         (meeting_attendee_mapping st) |}.

Definition aggregate (meetings : list MeetingInfo) : agg_state :=
  fold_left meeting_turn meetings empty_agg.

(** [sorted(items, key=lambda x: x[1], reverse=True)].  Python's sort is
    stable, also under [reverse=True]: items with equal counts keep the
    order they have in [items].  The stable sort of a list is unique; it
    is written here as an insertion sort. *)
Fixpoint insert_by_count (x : string * nat) (l : list (string * nat))
  : list (string * nat) :=
  match l with
  | [] => [x]
  | y :: r => if (snd y <=? snd x)%nat then x :: y :: r else y :: insert_by_count x r
  end.

Definition sorted_by_count_desc (items : list (string * nat)) : list (string * nat) :=
  foldr insert_by_count [] items.

(** The slice the last loop runs over: [sorted(...)[:10]]. *)
Definition most_frequent_pairs (st : agg_state) : list (string * nat) :=
  take 10 (sorted_by_count_desc (attendee_frequency st)).

Definition frequent_attendee (st : agg_state) (item : string * nat) : pyval :=
  let '(email, count) := item in
  PDict [("name", PStr (default email (dict_get email (attendee_name_mapping st))));
         ("email", PStr email);
         ("meeting_count", PInt count)].

(** [CalendarAgent.get_attendee_info_for_day], from the [DayEventsInfo]
    that [get_events_for_day] handed back. *)
Definition get_attendee_info_for_day (target_date : string)
    (day_events : DayEventsInfo) : list (string * pyval) :=
  if (total_events day_events =? 0)%nat then
    [("message", PStr "No events found for this date")]
  else
    let st := aggregate (meetings day_events) in
    [("date", PStr target_date);
     ("total_meetings", PInt (total_events day_events));
     ("unique_attendees", PInt (length (attendee_frequency st)));
     ("meeting_attendee_details", PDict (meeting_attendee_mapping st));
     ("most_frequent_attendees",
      PList (frequent_attendee st <$> most_frequent_pairs st));
     ("all_attendee_emails", PList (PStr <$> dict_keys (attendee_frequency st)));
     ("all_attendee_names", PList (PStr <$> dict_values (attendee_name_mapping st)))].

(** The [DayEventsInfo] that [get_events_for_day] builds when the calendar
    answers: [total_events] is the number of meetings. *)
Definition day_of (target_date : string) (meetings : list MeetingInfo)
    (summary_info : list (string * pyval)) : DayEventsInfo :=
  {| date := target_date; total_events := length meetings;
     meetings := meetings; summary_info := summary_info |}.

(** *** The day summary of [_analyze_day_events] *)

Section DaySummary.

(** What the summary takes from outside: whether an OpenAI key is set, the
    text the model writes for a day, and the printed sum of the meetings'
    durations (a [timedelta], built from parts of [datetime] that are not
    modelled here). *)
Variable openai_api_key : bool.
Variable _get_ai_day_analysis : list MeetingInfo -> string -> string.
Variable str_total_duration : list MeetingInfo -> string.

(** The inner loop [for attendee in meeting.attendees] over the set. *)
Definition add_attendee_email (total_attendees : gset string)
    (attendee : AttendeeInfo) : gset string :=
  if Str.nonempty (email attendee)
  then total_attendees ∪ {[ email attendee ]}
  else total_attendees.

Definition collect_attendees (meetings : list MeetingInfo) : gset string :=
  fold_left (fun total_attendees meeting =>
               fold_left add_attendee_email (attendees meeting) total_attendees)
            meetings ∅.

(** [CalendarAgent._analyze_day_events]. *)
Definition _analyze_day_events (meetings : list MeetingInfo) (date : string)
  : list (string * pyval) :=
  match meetings with
  | [] => [("summary", PStr "No events scheduled for this day")]
  | _ =>
      let total_meetings := length meetings in
      let total_attendees := collect_attendees meetings in
      let ai_analysis :=
        if openai_api_key then _get_ai_day_analysis meetings date else "" in
      [("summary", PStr (pretty total_meetings +:+ " meetings scheduled"));
       ("total_unique_attendees", PInt (size total_attendees));
       ("attendee_emails", PList (PStr <$> elements total_attendees));
       ("total_meeting_time", PStr (str_total_duration meetings));
       ("ai_analysis", PStr ai_analysis);
       ("meeting_titles", PList (PStr ∘ meeting_title <$> meetings))]
  end.

End DaySummary.

(** ** The directory look-up *)







(** ** Names found in a description *)

(** The part of [extract_person_names_basic] that follows the calls to
    [re.findall]: what a match adds to [names], and the removal of
    duplicates and of common words. *)
Definition comma : ascii := ",".

Definition names_of_match (m : string) : list string :=
  if Str.contains_char comma m
  then Str.strip Char.is_space <$> Str.split comma m
  else [Str.strip Char.is_space m].

Definition exclude_words : list string :=
  ["Meeting"; "Call"; "Discussion"; "Review"; "Sync"; "Standup"; "Team"].

(** One turn of [for name in names]. *)
Definition add_unique_name (unique_names : list string) (name : string) : list string :=
  if bool_decide (name ∉ unique_names) && bool_decide (name ∉ exclude_words)
  then unique_names ++ [name]
  else unique_names.

Definition patterns : list string :=
  ["\bwith\s+([A-Z][a-z]+(?:\s+[A-Z][a-z]+)*)";
   "\bmeeting\s+with\s+([A-Z][a-z]+(?:\s+[A-Z][a-z]+)*)";
   "\b([A-Z][a-z]+\s+[A-Z][a-z]+)\s+(?:will|is|has)";
   "\bAttendees?:\s*([A-Z][a-z]+(?:\s+[A-Z][a-z]+)*(?:,\s*[A-Z][a-z]+(?:\s+[A-Z][a-z]+)*)*)"].

(** [extract_person_names_basic], with [re.findall(pattern, text,
    re.IGNORECASE)] taken from outside as [findall]. *)
Definition extract_person_names_basic
    (findall : string -> string -> list string) (text : string) : list string :=
  let names := (patterns ≫= (λ pattern, findall pattern text)) ≫= names_of_match in
  fold_left add_unique_name names [].

(** ** Building a meeting and a day *)

(** The constructor call of the dataclass [MeetingInfo] followed by
    [__post_init__]; for [attendees] and [attendee_emails], [None] is the
    argument left at its default. *)
Definition new_MeetingInfo (meeting_title : string) (person_names : list string)
    (original_description meeting_id : string)
    (start_time end_time : option datetime)
    (attendees : option (list AttendeeInfo)) (attendee_emails : option (list string))
    (location organizer_name organizer_email organizer : string) : MeetingInfo :=
  let attendees := default [] attendees in
  let attendee_emails :=
    match attendee_emails with
    | Some emails => emails
    | None => List.filter Str.nonempty (email <$> attendees)
    end in
  let organizer :=
    if negb (Str.nonempty organizer) && Str.nonempty organizer_email
    then organizer_email
    else organizer in
  {| meeting_title := meeting_title; person_names := person_names;
     original_description := original_description; meeting_id := meeting_id;
     start_time := start_time; end_time := end_time;
     attendees := attendees; attendee_emails := attendee_emails;
     location := location; organizer_name := organizer_name;
     organizer_email := organizer_email; organizer := organizer |}.

(** A calendar event as [process_meeting] reads it: the text keys, each
    possibly missing, the start and the end as [datetime.fromisoformat]
    hands them back (the parsing is outside), and the people. *)
Record calendar_event := {
  ce_summary : option string;
  ce_description : option string;
  ce_id : option string;
  ce_location : option string;
  ce_start : option datetime;
  ce_end : option datetime;
  ce_people : event
}.

Section ProcessMeeting.

(** The extraction of title and person names, by the model or by the
    regular expressions, taken from outside: description first, then
    title, as in the call. *)
Variable extract_meeting_info_with_ai : string -> string -> string * list string.

(** [CalendarAgent.process_meeting]. *)
Definition process_meeting (ev : calendar_event) : MeetingInfo :=
  let title := default "No Title" (ce_summary ev) in
  let description := default "" (ce_description ev) in
  let event_id := default "" (ce_id ev) in
  let location := default "" (ce_location ev) in
  let '(extracted_title, person_names) :=
    extract_meeting_info_with_ai description title in
  let '(attendees_info, organizer_name, organizer_email) :=
    extract_attendee_info (ce_people ev) in
  new_MeetingInfo extracted_title person_names description event_id
    (ce_start ev) (ce_end ev) (Some attendees_info) None
    location organizer_name organizer_email "".

End ProcessMeeting.

(** ** The attendee tool of [calendar_search_agent.py] *)

(** Truth value of a returned value. *)
Definition py_truthy (v : pyval) : bool :=
  match v with
  | PStr s => Str.nonempty s
  | PInt n => negb (n =? 0)%nat
  | PList l => match l with [] => false | _ => true end
  | PDict d => match d with [] => false | _ => true end
  end.

(** [str(v)] as an f-string writes it, for a string and for a number.  The
    text of a list or of a dictionary is its [repr], which is not part of
    this development: [None]. *)
Definition py_str (v : pyval) : option string :=
  match v with
  | PStr s => Some s
  | PInt n => Some (pretty n)
  | PList _ | PDict _ => None
  end.

Definition nl : string := String Char.newline EmptyString.

(** One line of the loop over [all_attendees]; an entry that is not a
    dictionary makes [.get] raise: [None]. *)
Definition attendee_line (attendee : pyval) : option string :=
  match attendee with
  | PDict d =>
      name ← py_str (default (PStr "Unknown") (dict_get "name" d));
      email ← py_str (default (PStr "No email") (dict_get "email" d));
      Some ("- " +:+ name +:+ " (" +:+ email +:+ ")" +:+ nl)
  | _ => None
  end.

(** [', '.join(l)] for a list of strings; anything else raises: [None]. *)
Definition join_strings (v : pyval) : option string :=
  match v with
  | PList l =>
      parts ← mapM (λ x, match x with PStr s => Some s | _ => None end) l;
      Some (Str.join ", " parts)
  | _ => None
  end.

(** The two lines of the loop over [meeting_details]. *)
Definition meeting_lines (meeting : pyval) : option string :=
  match meeting with
  | PDict d =>
      title ← py_str (default (PStr "No title") (dict_get "title" d));
      names ← join_strings (default (PList []) (dict_get "attendees" d));
      Some ("- " +:+ title +:+ nl +:+ "  Attendees: " +:+ names +:+ nl)
  | _ => None
  end.

(** A [for] loop over a returned value that appends one text per entry;
    only a list is iterated here. *)
Definition lines_of (line : pyval -> option string) (v : pyval) : option string :=
  match v with
  | PList l => texts ← mapM line l; Some (Str.join "" texts)
  | _ => None
  end.

(** The tool [get_attendees_for_day], once the agent is built.
    [get_events_for_day] is the agent's access to the calendar.  The text
    is [None] where it would depend on a [repr] or on the message of an
    exception raised inside the [try]. *)
Definition get_attendees_for_day
    (get_events_for_day : string -> DayEventsInfo) (date_input : string)
  : option string :=
  let normalized_date :=
    Str.strip Char.is_quote (Str.strip Char.is_space date_input) in
  let attendee_info :=
    get_attendee_info_for_day normalized_date (get_events_for_day normalized_date) in
  match attendee_info with
  | [] => Some ("No attendee information found for " +:+ normalized_date)
  | _ =>
      unique ← py_str (default (PInt 0) (dict_get "total_unique_attendees" attendee_info));
      total ← py_str (default (PInt 0) (dict_get "total_meetings" attendee_info));
      let result :=
        "Attendee Information for " +:+ normalized_date +:+ ":" +:+ nl
        +:+ "Total Unique Attendees: " +:+ unique +:+ nl
        +:+ "Total Meetings: " +:+ total +:+ nl +:+ nl in
      let all_attendees := default (PList []) (dict_get "all_attendees" attendee_info) in
      result ←
        (if py_truthy all_attendees
         then lines ← lines_of attendee_line all_attendees;
              Some (result +:+ "All Attendees:" +:+ nl +:+ lines)
         else Some result);
      let meeting_details :=
        default (PList []) (dict_get "meeting_details" attendee_info) in
      if py_truthy meeting_details
      then lines ← lines_of meeting_lines meeting_details;
           Some (result +:+ nl +:+ "Meeting Details:" +:+ nl +:+ lines)
      else Some result
  end.

(** ** The wording of the specification, for comparison *)

(** The specification's dot rule read to the letter: with exactly two parts
    and a one-character first part the initial is upper-cased; otherwise
    each dot-separated part is title-cased and the parts are joined with a
    single space. *)
Definition spec_dot_rule (stripped : string) : string :=
  match Str.split Char.dot stripped with
  | [first; last] =>
      if (String.length first =? 1)%nat
      then Str.upper first +:+ " " +:+ Str.title last
      else Str.join " " [Str.title first; Str.title last]
  | parts => Str.join " " (Str.title <$> parts)
  end.



(** ** Notions used in the statements *)

(** Whether a string starts with an upper-case letter. *)
Definition head_is_upper (s : string) : bool :=
  match s with
  | String c _ => Char.is_upper c
  | EmptyString => false
  end.

(** Whether the last character of a string is in the class [p]. *)
Definition last_is (p : ascii -> bool) (s : string) : bool :=
  match Str.rev s with
  | String c _ => p c
  | EmptyString => false
  end.

(** The attendee records in the order the two loops of the aggregate visit
    them: meeting after meeting, attendee after attendee. *)
Definition observations (ms : list MeetingInfo) : list AttendeeInfo :=
  ms ≫= attendees.

(** The records of a list that carry the address [e]. *)
Definition listed (e : string) (l : list AttendeeInfo) : list AttendeeInfo :=
  filter (λ a, email a = e) l.

(** How many times a meeting lists the address [e]. *)
Definition times_listed (e : string) (m : MeetingInfo) : nat :=
  length (listed e (attendees m)).

(** The addresses in the order the loops meet them, and the position at
    which an address is met first. *)
Definition encounter_order (ms : list MeetingInfo) : list string :=
  filter (λ e, e ≠ "") (email <$> observations ms).

Fixpoint index_of (e : string) (l : list string) : nat :=
  match l with
  | [] => 0
  | x :: r => if String.eqb x e then 0 else S (index_of e r)
  end.

Definition first_seen (e : string) (ms : list MeetingInfo) : nat :=
  index_of e (encounter_order ms).

(** What one turn of the attendee loop does to each dictionary. *)
Definition tally (freq : list (string * nat)) (a : AttendeeInfo) : list (string * nat) :=
  if Str.nonempty (email a)
  then dict_set (email a) (default 0 (dict_get (email a) freq) + 1) freq
  else freq.

Definition remember (names : list (string * string)) (a : AttendeeInfo)
  : list (string * string) :=
  if Str.nonempty (email a)
  then dict_set (email a) (display_name a) names
  else names.

(** What one turn of the meeting loop does to the per-meeting view. *)
Definition store_meeting (view : list (string * pyval)) (m : MeetingInfo)
  : list (string * pyval) :=
  dict_set (meeting_title m) (meeting_entry (attendee_detail <$> attendees m) m) view.

(** A meeting as [process_meeting] hands it to the aggregate, with the
    fields the aggregate does not read left empty. *)
Definition meeting_of (title : string) (start : option datetime)
    (organizer_name organizer_email : string)
    (attendees : list AttendeeInfo) : MeetingInfo :=
  {| meeting_title := title; person_names := []; original_description := "";
     meeting_id := ""; start_time := start; end_time := None;
     attendees := attendees;
     attendee_emails := List.filter Str.nonempty (email <$> attendees);
     location := ""; organizer_name := organizer_name;
     organizer_email := organizer_email; organizer := organizer_email |}.

(** The display name under which an address was listed last in a day, the
    empty string when it is not listed. *)
Definition last_name (e : string) (ms : list MeetingInfo) : string :=
  default "" (display_name <$> last (listed e (observations ms))).

(** The number of times an address is listed in a day. *)
Definition total_listed (e : string) (ms : list MeetingInfo) : nat :=
  sum_list (times_listed e <$> ms).

(** The name a payload record states itself: the first non-empty one of
    [displayName], [name] and [cn]. *)
Definition explicit_name (attendee : gmap string string) : string :=
  if Str.nonempty (get_str attendee "displayName") then get_str attendee "displayName"
  else if Str.nonempty (get_str attendee "name") then get_str attendee "name"
  else get_str attendee "cn".

(** The values of the From headers of a list of messages, in the order the
    loops of the mailbox look-up visit them. *)
Definition from_header_values (messages : list (list (gmap string string)))
  : list string :=
  (λ header, get_str header "value")
    <$> filter (λ header, Str.lower (get_str header "name") = "from") (concat messages).

(** The non-empty addresses of the attendee records of a calendar event,
    in the order of the payload. *)
Definition payload_emails (ev : calendar_event) : list string :=
  List.filter Str.nonempty
    ((λ a, get_str a "email") <$> default [] (ev_attendees (ce_people ev))).

(** Whether the first character of a string is in the class [p]. *)
Definition first_is (p : ascii -> bool) (s : string) : bool :=
  match s with
  | String c _ => p c
  | EmptyString => false
  end.

(** Whether every character of a string is in the class [p]. *)
Fixpoint all_chars (p : ascii -> bool) (s : string) : bool :=
  match s with
  | String c r => p c && all_chars p r
  | EmptyString => true
  end.

(** * Properties *)

(** ** Characters and title-casing *)

Lemma is_lower_not_upper c : Char.is_lower c = true -> Char.is_upper c = false.
Proof. destruct c as [[] [] [] [] [] [] [] []]; vm_compute; congruence. Qed.

Lemma to_lower_not_upper c :
  Char.is_upper c = true -> Char.is_upper (Char.to_lower c) = false.
Proof. destruct c as [[] [] [] [] [] [] [] []]; vm_compute; congruence. Qed.

Lemma nonempty_true s : Str.nonempty s = true <-> s <> "".
Proof. destruct s; simpl; split; congruence. Qed.

Lemma nonempty_false s : Str.nonempty s = false <-> s = "".
Proof. destruct s; simpl; split; congruence. Qed.

Lemma search_lower_upper_cons a t :
  Str.search_lower_upper (String a t)
  = (Char.is_lower a && head_is_upper t) || Str.search_lower_upper t.
Proof. destruct t; simpl; [by rewrite andb_false_r|done]. Qed.

(** After a cased character, [title] never writes an upper-case letter. *)
Lemma title_after_cased s : head_is_upper (Str.title_from true s) = false.
Proof.
  destruct s as [|c r]; [done|]. simpl.
  destruct (Char.is_lower c) eqn:Hl; simpl.
  - by apply is_lower_not_upper.
  - destruct (Char.is_upper c) eqn:Hu; simpl; [|done].
    by apply to_lower_not_upper.
Qed.

Lemma title_from_no_lower_upper s :
  forall b, Str.search_lower_upper (Str.title_from b s) = false.
Proof.
  induction s as [|c r IH]; intros b; [done|].
  cbn [Str.title_from].
  destruct (Char.is_lower c) eqn:Hl; [|destruct (Char.is_upper c) eqn:Hu];
    rewrite search_lower_upper_cons, IH, ?title_after_cased, ?Hl;
    by rewrite ?andb_false_r.
Qed.

(** ** The e-mail name heuristic *)

(** C2.  The specification has a camel-case local part split at each
    lower-to-upper boundary, [johnSmith] giving [John Smith], and the
    source says the same in its comments.  The heuristic title-cases the
    token before it looks for such a boundary, so none is ever left:
    [johnSmith] comes out as [Johnsmith], and no token reaches the
    camel-case split. *)
Theorem camel_case_token_is_not_split :
  classify "johnSmith" = "Johnsmith"
  /\ _extract_name_from_email "johnSmith@example.com" = "Johnsmith"
  /\ forall token, Str.search_lower_upper (Str.title token) = false.
Proof.
  split; [reflexivity|]. split; [reflexivity|].
  intros token. apply title_from_no_lower_upper.
Qed.

(** C9, as the specification words it, fails on a local part with an
    empty dot-separated part among three or more: the source leaves empty
    parts out before it joins. *)
Lemma dot_rule_counterexample :
  classify "a..b" = "A B" /\ spec_dot_rule (strip_suffixes "a..b") = "A  B"
  /\ classify "a..b" <> spec_dot_rule (strip_suffixes "a..b").
Proof. vm_compute. repeat split; congruence. Qed.

(** C9, amended.  For a local part that still holds a dot after the
    trailing digits and separators are stripped: with exactly two parts, a
    one-character first part gives the upper-cased initial, a space and
    the title-cased last part, and any other first part gives both parts
    title-cased and joined with a space; with any other number of parts,
    the non-empty parts are title-cased and joined with single spaces. *)
Theorem dot_rule (local_part : string) :
  let stripped := strip_suffixes local_part in
  let parts := Str.split Char.dot stripped in
  Str.contains_char Char.dot stripped = true ->
  (forall first last, parts = [first; last] -> String.length first = 1 ->
     classify local_part = Str.upper first +:+ " " +:+ Str.title last)
  /\ (forall first last, parts = [first; last] -> String.length first <> 1 ->
        classify local_part = Str.join " " (Str.title <$> parts))
  /\ (length parts <> 2 ->
        classify local_part
        = Str.join " " (Str.title <$> List.filter Str.nonempty parts)).
Proof.
  intros stripped parts Hdot. unfold classify. fold stripped.
  rewrite Hdot. fold parts. repeat split.
  - intros first last -> Hlen. simpl. by rewrite Hlen.
  - intros first last -> Hlen. simpl.
    by destruct (Nat.eqb_spec (String.length first) 1).
  - intros Hlen. destruct parts as [|p [|q [|? ?]]]; simpl in *; done.
Qed.

Lemma dot_rule_witness :
  classify "j.smith" = "J Smith" /\ classify "jane.doe" = "Jane Doe"
  /\ classify "a.b.c" = "A B C".
Proof.
  pose proof (dot_rule "j.smith" eq_refl) as (H1 & _ & _).
  pose proof (dot_rule "jane.doe" eq_refl) as (_ & H2 & _).
  pose proof (dot_rule "a.b.c" eq_refl) as (_ & _ & H3).
  split; [exact (H1 "j" "smith" eq_refl eq_refl)|].
  split; [refine (H2 "jane" "doe" eq_refl _); vm_compute; lia|].
  apply H3. vm_compute. lia.
Defined.

(** ** The From-header parser *)


(** The comparison with the known address is made before the quotes are
    removed: a quoted copy of the address is handed back as the name, and
    a pair of quotes around nothing is handed back as an empty name. *)
Lemma quoted_address_is_returned :
  parse_from_header "'a@b.com' <a@b.com>" "a@b.com" = Some "a@b.com"
  /\ parse_from_header "'' <a@b.com>" "a@b.com" = Some "".
Proof. by vm_compute. Qed.



(** ** Reversal and stripping *)

Lemma append_assoc (x y z : string) : (x +:+ y) +:+ z = x +:+ (y +:+ z).
Proof.
  induction x as [|c x IH]; [done|].
  change (String c ((x +:+ y) +:+ z) = String c (x +:+ (y +:+ z))).
  by rewrite IH.
Qed.

Lemma rev_onto_append (s : string) :
  forall acc, Str.rev_onto acc s = Str.rev s +:+ acc.
Proof.
  unfold Str.rev. induction s as [|c r IH]; intros acc; [done|]. simpl.
  by rewrite (IH (String c acc)), (IH (String c "")), append_assoc.
Qed.

Lemma rev_cons c r : Str.rev (String c r) = Str.rev r +:+ String c "".
Proof. unfold Str.rev at 1. simpl. apply rev_onto_append. Qed.

Lemma rev_snoc s c : Str.rev (s +:+ String c "") = String c (Str.rev s).
Proof.
  induction s as [|d s IH]; [done|].
  change (String d s +:+ String c "") with (String d (s +:+ String c "")).
  by rewrite !rev_cons, IH.
Qed.

Lemma rev_involutive s : Str.rev (Str.rev s) = s.
Proof. induction s as [|c r IH]; [done|]. by rewrite rev_cons, rev_snoc, IH. Qed.

Lemma rev_empty s : Str.rev s = "" -> s = "".
Proof. intros H. by rewrite <- (rev_involutive s), H. Qed.

Lemma last_is_cons p c r :
  last_is p (String c r) = match r with "" => p c | _ => last_is p r end.
Proof.
  unfold last_is. rewrite rev_cons. destruct r as [|d r]; [done|].
  destruct (Str.rev (String d r)) eqn:E; [by apply rev_empty in E|done].
Qed.

Lemma drop_while_head p s :
  match Str.drop_while p s with String c _ => p c | "" => false end = false.
Proof.
  induction s as [|c r IH]; [done|]. simpl. by destruct (p c) eqn:E; [|rewrite E].
Qed.

(** What [re.sub] leaves does not end in a character of the class it
    removed. *)
Lemma sub_trailing_last p s :
  p Char.newline = false -> last_is p (Str.sub_trailing p s) = false.
Proof.
  intros Hnl. unfold last_is, Str.sub_trailing, Str.rstrip.
  destruct (Str.rev s) as [|c r] eqn:E; [done|].
  destruct (Ascii.eqb_spec c Char.newline) as [->|_].
  - by rewrite rev_involutive.
  - rewrite rev_involutive. apply drop_while_head.
Qed.

(** A string whose parts are all empty is made of separators up to its
    last character. *)
Lemma split_all_empty sep s :
  List.filter Str.nonempty (Str.split sep s) = [] ->
  s = "" \/ last_is (λ c, Ascii.eqb c sep) s = true.
Proof.
  induction s as [|c r IH]; [by left|]. intros Hparts. right.
  simpl in Hparts. rewrite last_is_cons.
  destruct (Ascii.eqb c sep) eqn:Ec.
  - simpl in Hparts. destruct (IH Hparts) as [->|Hlast]; [done|].
    by destruct r.
  - by destruct (Str.split sep r).
Qed.

Lemma last_is_mono (p q : ascii -> bool) s :
  (forall c, p c = true -> q c = true) -> last_is p s = true -> last_is q s = true.
Proof. unfold last_is. destruct (Str.rev s); [done|]. intros H. apply H. Qed.

(** ** Where the heuristic produces an empty name *)

Lemma title_from_empty b s : Str.title_from b s = "" <-> s = "".
Proof.
  destruct s as [|c r]; [done|]. simpl.
  by destruct (Char.is_lower c), (Char.is_upper c).
Qed.

Lemma spaced_nonempty x y : x +:+ " " +:+ y <> "".
Proof. by destruct x. Qed.

Lemma join_titled_empty parts :
  join_titled parts = "" -> List.filter Str.nonempty parts = [].
Proof.
  unfold join_titled. destruct (List.filter Str.nonempty parts) as [|p ps] eqn:E; [done|].
  assert (p <> "") as Hp.
  { apply nonempty_true. eapply (proj1 (filter_In _ p parts)).
    rewrite E. by left. }
  rewrite fmap_cons. intros Hjoin. exfalso.
  assert (Str.title p <> "") as Ht by (unfold Str.title; by rewrite title_from_empty).
  destruct (Str.title <$> ps); simpl in Hjoin; [done|].
  by destruct (Str.title p).
Qed.

Lemma separated_nonempty (sep : ascii) (stripped : string) :
  Char.is_separator sep = true ->
  last_is Char.is_separator stripped = false ->
  stripped <> "" ->
  join_titled (Str.split sep stripped) <> "".
Proof.
  intros Hsep Hlast Hne Hjoin.
  apply join_titled_empty, split_all_empty in Hjoin as [?|Hjoin]; [done|].
  apply (last_is_mono _ Char.is_separator) in Hjoin; [congruence|].
  by intros c ->%Ascii.eqb_eq.
Qed.

Lemma try_prefixes_nonempty prefixes name name_lower r :
  try_prefixes prefixes name name_lower = Some r -> r <> "".
Proof.
  induction prefixes as [|prefix rest IH]; simpl; [done|].
  destruct (_ && _); [|done]. intros [= <-]. apply spaced_nonempty.
Qed.

Lemma try_locations_nonempty locations name name_lower r :
  try_locations locations name name_lower = Some r -> r <> "".
Proof.
  induction locations as [|loc rest IH]; simpl; [done|].
  destruct (_ && _); [|done]. destruct (Str.find loc name_lower); [|done].
  destruct (_ <? _); [|done]. intros [= <-]. apply spaced_nonempty.
Qed.

Lemma smart_split_title_nonempty token :
  token <> "" -> _smart_split_name (Str.title token) <> "".
Proof.
  intros Htoken. unfold _smart_split_name, Str.title.
  rewrite title_from_no_lower_upper.
  destruct (try_prefixes _ _ _) eqn:Hp; [by eapply try_prefixes_nonempty|].
  destruct (try_locations _ _ _) eqn:Hl; [by eapply try_locations_nonempty|].
  by rewrite title_from_empty.
Qed.

Lemma strip_suffixes_last local_part :
  last_is Char.is_separator (strip_suffixes local_part) = false.
Proof. by apply sub_trailing_last. Qed.

Lemma dot_branch_nonempty stripped :
  last_is Char.is_separator stripped = false ->
  stripped <> "" ->
  dot_branch (Str.split Char.dot stripped) <> "".
Proof.
  intros Hlast Hne. unfold dot_branch.
  destruct (Str.split Char.dot stripped) as [|first [|last [|? ?]]] eqn:E;
    try (rewrite <- E; by apply separated_nonempty).
  destruct (_ =? _); apply spaced_nonempty.
Qed.

(** The classifier returns the empty string exactly when the two
    [re.sub] calls leave nothing of the local part. *)
Lemma classify_empty local_part :
  classify local_part = "" <-> strip_suffixes local_part = "".
Proof.
  split.
  - intros Hc. destruct (decide (strip_suffixes local_part = "")) as [|Hne]; [done|].
    exfalso. revert Hc. unfold classify.
    pose proof (strip_suffixes_last local_part) as Hlast.
    destruct (Str.contains_char Char.dot _); [by apply dot_branch_nonempty|].
    destruct (Str.contains_char Char.underscore _); [by apply separated_nonempty|].
    destruct (Str.contains_char Char.hyphen _); [by apply separated_nonempty|].
    by apply smart_split_title_nonempty.
  - intros Hs. unfold classify. by rewrite Hs.
Qed.

Lemma dataclass_name_empty email :
  email <> "" ->
  AttendeeInfo_extract_name_from_email email = ""
  <-> strip_suffixes (local_part_of email) = "".
Proof.
  intros He%nonempty_true. unfold AttendeeInfo_extract_name_from_email. rewrite He.
  split.
  - intros Hc.
    destruct (decide (strip_suffixes (local_part_of email) = "")) as [|Hne]; [done|].
    exfalso. revert Hc.
    pose proof (strip_suffixes_last (local_part_of email)) as Hlast.
    destruct (Str.contains_char Char.dot _); [by apply dot_branch_nonempty|].
    destruct (Str.contains_char Char.underscore _); [by apply separated_nonempty|].
    destruct (Str.contains_char Char.hyphen _); [by apply separated_nonempty|].
    unfold Str.title. by rewrite title_from_empty.
  - intros Hs. by rewrite Hs.
Qed.

(** ** Attendee extraction *)

Lemma fold_append_resolved (raw : list (gmap string string)) :
  forall acc, fold_left append_resolved raw acc = acc ++ omap resolve_attendee raw.
Proof.
  induction raw as [|a raw IH]; intros acc; simpl.
  - by rewrite app_nil_r.
  - rewrite IH. unfold append_resolved.
    destruct (resolve_attendee a); [by rewrite <- app_assoc|done].
Qed.

Lemma resolve_attendee_email (a : gmap string string) info :
  resolve_attendee a = Some info ->
  email info = get_str a "email" /\ get_str a "email" <> "".
Proof.
  unfold resolve_attendee.
  destruct (Str.nonempty (get_str a "email")) eqn:He; [|done].
  intros [= <-]. split; [done|]. by apply nonempty_true.
Qed.

Lemma emails_of_resolved (raw : list (gmap string string)) :
  email <$> omap resolve_attendee raw
  = List.filter Str.nonempty ((fun a => get_str a "email") <$> raw).
Proof.
  induction raw as [|a raw IH]; [done|].
  cbn [omap list_omap fmap list_fmap List.filter]. fold (omap resolve_attendee raw).
  destruct (resolve_attendee a) as [info|] eqn:Hr.
  - apply resolve_attendee_email in Hr as [Hemail Hne].
    apply nonempty_true in Hne. rewrite Hne, fmap_cons. by rewrite IH, Hemail.
  - unfold resolve_attendee in Hr.
    destruct (Str.nonempty (get_str a "email")); [done|]. by rewrite IH.
Qed.

(** C1.  The specification has every attendee record carry a non-empty
    display name, and the dataclass falls back to [Unknown] to that end.
    An address whose local part is digits only slips through: the digits
    are stripped as a numeric suffix, nothing is left to title-case, and
    both the agent's heuristic and the dataclass's own produce the empty
    string. *)
Theorem digits_only_address_has_empty_display_name :
  _extract_name_from_email "123@x.com" = ""
  /\ resolve_attendee {[ "email" := "123@x.com" ]}
     = Some {| name := ""; email := "123@x.com"; display_name := "" |}
  /\ extract_attendee_info
       {| ev_organizer := None;
          ev_attendees := Some [ {[ "email" := "123@x.com" ]} ] |}
     = ([ {| name := ""; email := "123@x.com"; display_name := "" |} ], "", "").
Proof. by vm_compute. Qed.

(** The extent of the gap: a built attendee has an empty display name
    exactly when the payload gives no name and stripping the local part
    leaves nothing. *)
Lemma display_name_empty_iff (attendee : gmap string string) info :
  resolve_attendee attendee = Some info ->
  display_name info = ""
  <-> get_str attendee "displayName" = "" /\ get_str attendee "name" = ""
      /\ get_str attendee "cn" = ""
      /\ strip_suffixes (local_part_of (get_str attendee "email")) = "".
Proof.
  unfold resolve_attendee.
  destruct (Str.nonempty (get_str attendee "email")) eqn:He; [|done].
  intros [= <-]. unfold new_AttendeeInfo, _extract_name_from_email. cbn [display_name].
  rewrite He.
  destruct (get_str attendee "displayName") as [|c1 r1] eqn:E1; cbn [Str.nonempty];
    [|split; [done|by intros [? _]]].
  destruct (get_str attendee "name") as [|c2 r2] eqn:E2; cbn [Str.nonempty];
    [|split; [done|by intros (_ & ? & _)]].
  destruct (get_str attendee "cn") as [|c3 r3] eqn:E3; cbn [Str.nonempty];
    [|split; [done|by intros (_ & _ & ? & _)]].
  apply nonempty_true in He.
  destruct (Str.nonempty (classify _)) eqn:Hc.
  - rewrite classify_empty. by split; [|intros (_ & _ & _ & ?)].
  - rewrite dataclass_name_empty by done. by split; [|intros (_ & _ & _ & ?)].
Qed.

(** C6.  A raw attendee without an e-mail resolves to nothing, and
    [extract_attendee_info], which returns for every event, keeps exactly
    the attendees that have an e-mail, in the order of the payload. *)
Theorem attendees_without_email_are_dropped (ev : event) :
  let raw := default [] (ev_attendees ev) in
  let built := (extract_attendee_info ev).1.1 in
  (forall attendee, get_str attendee "email" = "" -> resolve_attendee attendee = None)
  /\ built = omap resolve_attendee raw
  /\ email <$> built
     = List.filter Str.nonempty ((fun a => get_str a "email") <$> raw).
Proof.
  intros raw built.
  assert (built = omap resolve_attendee raw) as Hbuilt.
  { subst built raw. unfold extract_attendee_info.
    destruct (resolve_organizer _) as [organizer_name organizer_email].
    simpl. by rewrite fold_append_resolved. }
  split; [|split; [done|]].
  - intros attendee Hnone. unfold resolve_attendee. by rewrite Hnone.
  - rewrite Hbuilt. apply emails_of_resolved.
Qed.

Lemma attendees_without_email_are_dropped_witness :
  resolve_attendee {[ "displayName" := "Ann" ]} = None
  /\ email <$> (extract_attendee_info
        {| ev_organizer := None;
           ev_attendees := Some [ {[ "email" := "a@x.com" ]};
                                  {[ "displayName" := "Ann" ]};
                                  {[ "email" := "b@x.com"; "cn" := "Bea" ]} ] |}).1.1
     = ["a@x.com"; "b@x.com"].
Proof.
  split.
  - exact (proj1 (attendees_without_email_are_dropped
                    {| ev_organizer := None; ev_attendees := None |})
                 {[ "displayName" := "Ann" ]} eq_refl).
  - exact (proj2 (proj2 (attendees_without_email_are_dropped
        {| ev_organizer := None;
           ev_attendees := Some [ {[ "email" := "a@x.com" ]};
                                  {[ "displayName" := "Ann" ]};
                                  {[ "email" := "b@x.com"; "cn" := "Bea" ]} ] |}))).
Defined.

(** The builder with look-ups drops the same attendees, whatever the
    services answer. *)
Lemma enhanced_attendees_without_email_are_dropped people gmail (ev : event) :
  email <$> (extract_attendee_info_enhanced people gmail ev).1.1
  = List.filter Str.nonempty
      ((fun a => get_str a "email") <$> default [] (ev_attendees ev)).
Proof.
  unfold extract_attendee_info_enhanced.
  destruct (resolve_organizer_enhanced _ _) as [organizer_name organizer_email].
  cbn [fst]. generalize (default [] (ev_attendees ev)). intros raw.
  assert (forall acc,
    email <$> fold_left (append_resolved_enhanced people gmail) raw acc
    = (email <$> acc)
      ++ List.filter Str.nonempty ((fun a => get_str a "email") <$> raw)) as H.
  { induction raw as [|a raw IH]; intros acc; [by rewrite app_nil_r|].
    cbn [fold_left]. rewrite IH, fmap_cons. cbn [List.filter].
    unfold append_resolved_enhanced, resolve_attendee_enhanced.
    destruct (Str.nonempty (get_str a "email")); [|done].
    rewrite fmap_app. cbn. by rewrite <- app_assoc. }
  apply (H []).
Qed.

(** C7, as the specification words it, fails: an organizer record with no
    e-mail and no name resolves to the empty name, not to [Unknown]. *)
Lemma organizer_counterexample :
  (extract_attendee_info {| ev_organizer := Some ∅; ev_attendees := None |}).1.2
  <> "Unknown".
Proof. by vm_compute. Qed.

(** C7, amended.  For every event whose organizer record has neither an
    e-mail nor a [displayName] nor a [name], or that has no organizer
    record, the resolved organizer name is the empty string, and so is the
    organizer e-mail. *)
Theorem organizer_without_email_or_name (ev : event) :
  let organizer_info := default ∅ (ev_organizer ev) in
  get_str organizer_info "email" = "" ->
  get_str organizer_info "displayName" = "" ->
  get_str organizer_info "name" = "" ->
  (extract_attendee_info ev).1.2 = "" /\ (extract_attendee_info ev).2 = "".
Proof.
  intros organizer_info Hemail Hdisplay Hname.
  unfold extract_attendee_info, resolve_organizer. fold organizer_info.
  by rewrite Hemail, Hdisplay, Hname.
Qed.

Lemma organizer_without_email_or_name_witness :
  (extract_attendee_info
     {| ev_organizer := Some {[ "self" := "true" ]}; ev_attendees := None |}).1.2 = "".
Proof.
  exact (proj1 (organizer_without_email_or_name
     {| ev_organizer := Some {[ "self" := "true" ]}; ev_attendees := None |}
     eq_refl eq_refl eq_refl)).
Defined.

(** ** The empty day *)

(** C5, as the specification words it, fails: the result for a day without
    events has no unique-attendee count at all. *)
Lemma empty_day_counterexample :
  dict_get "unique_attendees"
    (get_attendee_info_for_day "2024-01-15" (day_of "2024-01-15" [] []))
  <> Some (PInt 0).
Proof. by vm_compute. Qed.

(** C5, amended.  For a day without events the aggregate is a result, not
    an error, made of the no-events marker alone: the attendee report is
    the single entry [message], the day summary is the single entry
    [summary], and neither holds a unique-attendee count. *)
Theorem empty_day_is_marker_only (target_date : string)
    (summary_info : list (string * pyval)) (openai_api_key : bool)
    (ai : list MeetingInfo -> string -> string)
    (str_total_duration : list MeetingInfo -> string) :
  let report :=
    get_attendee_info_for_day target_date (day_of target_date [] summary_info) in
  let summary := _analyze_day_events openai_api_key ai str_total_duration [] target_date in
  report = [("message", PStr "No events found for this date")]
  /\ dict_get "unique_attendees" report = None
  /\ summary = [("summary", PStr "No events scheduled for this day")]
  /\ dict_get "total_unique_attendees" summary = None.
Proof. done. Qed.

(** ** Dictionaries *)

Section DictFacts.
Context {V : Type}.
Implicit Types (d : list (string * V)) (k : string) (v : V).

Lemma dict_get_set k k' v d :
  dict_get k' (dict_set k v d) = if decide (k = k') then Some v else dict_get k' d.
Proof.
  induction d as [|[k0 v0] d IH]; simpl.
  - destruct (String.eqb_spec k k'); case_decide; done.
  - destruct (String.eqb_spec k0 k) as [->|Hne]; simpl.
    + destruct (String.eqb_spec k k'); case_decide; done.
    + rewrite IH. destruct (String.eqb_spec k0 k'); case_decide; congruence.
Qed.

Lemma dict_keys_set k v d :
  dict_keys (dict_set k v d)
  = if decide (k ∈ dict_keys d) then dict_keys d else dict_keys d ++ [k].
Proof.
  induction d as [|[k0 v0] d IH]; simpl; [done|].
  destruct (String.eqb_spec k0 k) as [->|Hne].
  - by rewrite decide_True by left.
  - change (dict_keys ((k0, v0) :: dict_set k v d))
      with (k0 :: dict_keys (dict_set k v d)).
    rewrite IH. destruct (decide (k ∈ dict_keys d)).
    + by rewrite decide_True by by right.
    + rewrite decide_False; [done|].
      intros [?|?]%elem_of_cons; congruence.
Qed.

Lemma dict_set_NoDup k v d : NoDup (dict_keys d) -> NoDup (dict_keys (dict_set k v d)).
Proof.
  intros Hd. rewrite dict_keys_set. case_decide; [done|].
  apply NoDup_app. split_and!; [done| |apply NoDup_singleton].
  intros x Hx ->%list_elem_of_singleton. done.
Qed.

End DictFacts.

(** ** The aggregation loops, dictionary by dictionary *)

Lemma attendee_loop (l : list AttendeeInfo) :
  forall details st,
    fold_left attendee_turn l (details, st)
    = (details ++ (attendee_detail <$> l),
       {| attendee_frequency := fold_left tally l (attendee_frequency st);
          attendee_name_mapping := fold_left remember l (attendee_name_mapping st);
          meeting_attendee_mapping := meeting_attendee_mapping st |}).
Proof.
  induction l as [|a l IH]; intros details st.
  - simpl. rewrite app_nil_r. by destruct st.
  - cbn [fold_left]. unfold attendee_turn at 2, tally at 2, remember at 2.
    destruct (Str.nonempty (email a)); rewrite IH; simpl;
      by rewrite <- app_assoc.
Qed.

Lemma meeting_turn_unfold st m :
  meeting_turn st m
  = {| attendee_frequency := fold_left tally (attendees m) (attendee_frequency st);
       attendee_name_mapping := fold_left remember (attendees m) (attendee_name_mapping st);
       meeting_attendee_mapping := store_meeting (meeting_attendee_mapping st) m |}.
Proof. unfold meeting_turn. by rewrite attendee_loop. Qed.

Lemma meeting_loop (ms : list MeetingInfo) :
  forall st,
    fold_left meeting_turn ms st
    = {| attendee_frequency := fold_left tally (observations ms) (attendee_frequency st);
         attendee_name_mapping :=
           fold_left remember (observations ms) (attendee_name_mapping st);
         meeting_attendee_mapping :=
           fold_left store_meeting ms (meeting_attendee_mapping st) |}.
Proof.
  induction ms as [|m ms IH]; intros st; [by destruct st|].
  cbn [fold_left]. rewrite IH, meeting_turn_unfold. unfold observations. simpl.
  by rewrite !fold_left_app.
Qed.

Lemma aggregate_frequency ms :
  attendee_frequency (aggregate ms) = fold_left tally (observations ms) [].
Proof. unfold aggregate. by rewrite meeting_loop. Qed.

Lemma aggregate_names ms :
  attendee_name_mapping (aggregate ms) = fold_left remember (observations ms) [].
Proof. unfold aggregate. by rewrite meeting_loop. Qed.

Lemma aggregate_view ms :
  meeting_attendee_mapping (aggregate ms) = fold_left store_meeting ms [].
Proof. unfold aggregate. by rewrite meeting_loop. Qed.

(** The frequency dictionary counts the records that carry an address. *)
Lemma tally_counts (e : string) (l : list AttendeeInfo) :
  e <> "" ->
  forall freq,
    dict_get e (fold_left tally l freq)
    = match listed e l with
      | [] => dict_get e freq
      | _ => Some (default 0 (dict_get e freq) + length (listed e l))
      end.
Proof.
  intros He. unfold listed. induction l as [|a l IH]; intros freq; [done|].
  cbn [fold_left]. rewrite IH, filter_cons. unfold tally.
  destruct (decide (email a = e)) as [<-|Hne].
  - apply nonempty_true in He. rewrite He, !dict_get_set, !decide_True by done.
    destruct (filter _ l); simpl; f_equal; lia.
  - destruct (Str.nonempty (email a)); [|done].
    by rewrite !dict_get_set, !decide_False by done.
Qed.

(** A dictionary written with [d[key x] = val x] for the elements [x] that
    pass [guard] holds, under a key, the value of the last element with
    that key. *)
Section LastWrite.
Context {A V : Type} (guard : A -> bool) (key : A -> string) (val : A -> V).

Lemma last_write_wins (k : string) (l : list A) :
  (forall x, key x = k -> guard x = true) ->
  forall d,
    dict_get k (fold_left (λ d x, if guard x then dict_set (key x) (val x) d else d) l d)
    = match last (filter (λ x, key x = k) l) with
      | Some x => Some (val x)
      | None => dict_get k d
      end.
Proof.
  intros Hguard. induction l as [|a l IH]; intros d; [done|].
  cbn [fold_left]. rewrite IH, filter_cons.
  destruct (decide (key a = k)) as [Hk|Hk].
  - rewrite last_cons, (Hguard a Hk), dict_get_set, decide_True by done.
    by destruct (last _).
  - destruct (guard a); [|done]. by rewrite dict_get_set, decide_False by done.
Qed.

End LastWrite.

Lemma remember_last (e : string) (l : list AttendeeInfo) names :
  e <> "" ->
  dict_get e (fold_left remember l names)
  = match last (listed e l) with
    | Some a => Some (display_name a)
    | None => dict_get e names
    end.
Proof.
  intros He.
  apply (last_write_wins (λ a, Str.nonempty (email a)) email display_name).
  intros a <-. by apply nonempty_true.
Qed.

Lemma store_last (t : string) (ms : list MeetingInfo) view :
  dict_get t (fold_left store_meeting ms view)
  = match last (filter (λ m, meeting_title m = t) ms) with
    | Some m => Some (meeting_entry (attendee_detail <$> attendees m) m)
    | None => dict_get t view
    end.
Proof.
  exact (last_write_wins (λ _, true) meeting_title
           (λ m, meeting_entry (attendee_detail <$> attendees m) m) t ms
           (λ _ _, eq_refl) view).
Qed.

Lemma store_NoDup (ms : list MeetingInfo) :
  forall view, NoDup (dict_keys view) -> NoDup (dict_keys (fold_left store_meeting ms view)).
Proof.
  induction ms as [|m ms IH]; intros view Hview; [done|].
  cbn [fold_left]. apply IH. by apply dict_set_NoDup.
Qed.

Lemma dict_get_elem {V} (k : string) (v : V) (d : list (string * V)) :
  NoDup (dict_keys d) -> (k, v) ∈ d -> dict_get k d = Some v.
Proof.
  induction d as [|[k0 v0] d IH]; simpl; intros Hnd Hin.
  - by apply elem_of_nil in Hin.
  - change (dict_keys ((k0, v0) :: d)) with (k0 :: dict_keys d) in Hnd.
    apply NoDup_cons in Hnd as [Hk0 Hnd].
    apply elem_of_cons in Hin as [[= -> ->]|Hin]; [by rewrite String.eqb_refl|].
    destruct (String.eqb_spec k0 k) as [->|_]; [|by apply IH].
    destruct Hk0. by apply (list_elem_of_fmap_2 fst) in Hin.
Qed.

Lemma observations_app ms1 ms2 :
  observations (ms1 ++ ms2) = observations ms1 ++ observations ms2.
Proof. apply bind_app. Qed.

Lemma observations_cons m ms : observations (m :: ms) = attendees m ++ observations ms.
Proof. done. Qed.

Lemma listed_app e l1 l2 : listed e (l1 ++ l2) = listed e l1 ++ listed e l2.
Proof. apply filter_app. Qed.

Lemma listed_nowhere e (ms : list MeetingInfo) :
  Forall (λ m, e ∉ email <$> attendees m) ms -> listed e (observations ms) = [].
Proof.
  induction 1 as [|m ms Hm _ IH]; [done|].
  rewrite observations_cons, listed_app, IH, app_nil_r.
  unfold listed. induction (attendees m) as [|a l IHl]; [done|].
  rewrite fmap_cons, not_elem_of_cons in Hm. destruct Hm as [Hne Hl].
  rewrite filter_cons, decide_False by done. by apply IHl.
Qed.

Lemma listed_total e (ms : list MeetingInfo) :
  length (listed e (observations ms)) = sum_list (times_listed e <$> ms).
Proof.
  induction ms as [|m ms IH]; [done|].
  rewrite observations_cons, listed_app, length_app, IH. done.
Qed.

(** ** The day aggregate *)

(** C3.  When an address is listed once in an earlier meeting under the
    display name [A] and once in a later meeting under [B], and in no
    other meeting of the day, the aggregate counts it twice and keeps
    [B] as its name: the later write wins. *)
Theorem later_display_name_wins
    (earlier middle later : list MeetingInfo) (m1 m2 : MeetingInfo)
    (e A B : string) :
  let st := aggregate (earlier ++ m1 :: middle ++ m2 :: later) in
  e <> "" ->
  Forall (λ m, e ∉ email <$> attendees m) (earlier ++ middle ++ later) ->
  display_name <$> listed e (attendees m1) = [A] ->
  display_name <$> listed e (attendees m2) = [B] ->
  dict_get e (attendee_frequency st) = Some 2
  /\ dict_get e (attendee_name_mapping st) = Some B.
Proof.
  intros st He Hothers H1 H2.
  apply Forall_app in Hothers as [Hearlier Hothers].
  apply Forall_app in Hothers as [Hmiddle Hlater].
  destruct (listed e (attendees m1)) as [|a1 [|? ?]] eqn:E1; simplify_eq/=.
  destruct (listed e (attendees m2)) as [|a2 [|? ?]] eqn:E2; simplify_eq/=.
  assert (listed e (observations (earlier ++ m1 :: middle ++ m2 :: later)) = [a1; a2])
    as Hlisted.
  { rewrite observations_app, observations_cons, observations_app, observations_cons.
    rewrite !listed_app, E1, E2, !listed_nowhere by done. done. }
  subst st. rewrite aggregate_frequency, aggregate_names.
  rewrite tally_counts, remember_last, Hlisted by done. done.
Qed.

Lemma later_display_name_wins_witness :
  let m1 := meeting_of "Standup" None "" "" [new_AttendeeInfo "A" "attendee@x.com"] in
  let m  := meeting_of "Lunch" None "" "" [new_AttendeeInfo "" "c@x.com"] in
  let m2 := meeting_of "Review" None "" ""
              [new_AttendeeInfo "C" "c@x.com"; new_AttendeeInfo "B" "attendee@x.com"] in
  dict_get "attendee@x.com" (attendee_frequency (aggregate [m1; m; m2])) = Some 2
  /\ dict_get "attendee@x.com" (attendee_name_mapping (aggregate [m1; m; m2])) = Some "B".
Proof.
  intros m1 m m2.
  apply (later_display_name_wins [] [m] [] m1 m2 "attendee@x.com" "A" "B").
  - discriminate.
  - apply Forall_singleton. simpl. by intros ?%list_elem_of_singleton.
  - reflexivity.
  - reflexivity.
Defined.

(** C10.  The per-meeting view is keyed by title.  When two meetings of a
    day share a title and no later meeting has it, the view holds one entry
    under that title and it is the later meeting's: its attendee details,
    its attendee names and addresses, its organizer and its time, written
    out below; nothing else stands under that title.  The frequency of an
    address is still the number of times it is listed over all meetings,
    the earlier one included. *)
Theorem same_title_keeps_later_meeting
    (target_date : string) (summary_info : list (string * pyval))
    (earlier middle later : list MeetingInfo) (m1 m2 : MeetingInfo) :
  let ms := earlier ++ m1 :: middle ++ m2 :: later in
  let report :=
    get_attendee_info_for_day target_date (day_of target_date ms summary_info) in
  let later_entry :=
    PDict [("attendees",
            PList ((λ a, PDict [("name", PStr (display_name a));
                                ("email", PStr (email a))]) <$> attendees m2));
           ("attendee_names", PList (PStr <$> (display_name <$> attendees m2)));
           ("attendee_emails",
            PList (PStr <$> List.filter Str.nonempty (email <$> attendees m2)));
           ("organizer_name", PStr (organizer_name m2));
           ("organizer_email", PStr (organizer_email m2));
           ("time", PStr (match start_time m2 with
                          | Some t => strftime_HM t
                          | None => "Unknown"
                          end))] in
  meeting_title m1 = meeting_title m2 ->
  Forall (λ m, meeting_title m ≠ meeting_title m2) later ->
  exists view,
    dict_get "meeting_attendee_details" report = Some (PDict view)
    /\ NoDup (dict_keys view)
    /\ dict_get (meeting_title m1) view = Some later_entry
    /\ (forall entry, (meeting_title m1, entry) ∈ view -> entry = later_entry)
    /\ forall e, e <> "" ->
         default 0 (dict_get e (attendee_frequency (aggregate ms)))
         = sum_list (times_listed e <$> earlier) + times_listed e m1
           + sum_list (times_listed e <$> middle) + times_listed e m2
           + sum_list (times_listed e <$> later).
Proof.
  intros ms report later_entry Htitle Hlater.
  change later_entry with (meeting_entry (attendee_detail <$> attendees m2) m2).
  clear later_entry.
  assert (NoDup (dict_keys (meeting_attendee_mapping (aggregate ms)))) as Hnd.
  { rewrite aggregate_view. apply store_NoDup, NoDup_nil_2. }
  assert (dict_get (meeting_title m1) (meeting_attendee_mapping (aggregate ms))
          = Some (meeting_entry (attendee_detail <$> attendees m2) m2)) as Hentry.
  { rewrite aggregate_view, store_last, Htitle. subst ms.
    rewrite filter_app, filter_cons, filter_app, (filter_cons _ m2).
    rewrite !decide_True by done.
    replace (filter _ later) with (@nil MeetingInfo).
    + by rewrite last_app, last_cons, last_app.
    + symmetry. clear Hnd report. induction Hlater as [|m l Hm _ IH]; [done|].
      by rewrite filter_cons, decide_False. }
  exists (meeting_attendee_mapping (aggregate ms)). split_and!.
  - subst report. unfold get_attendee_info_for_day, day_of. cbn [total_events meetings].
    replace (length ms =? 0)%nat with false; [done|].
    subst ms. rewrite length_app. simpl. by rewrite Nat.add_succ_r.
  - done.
  - done.
  - intros entry Hin. apply dict_get_elem in Hin; [|done]. congruence.
  - intros e He. rewrite aggregate_frequency, tally_counts by done.
    transitivity (length (listed e (observations ms))).
    { by destruct (listed e (observations ms)). }
    rewrite listed_total. subst ms.
    rewrite fmap_app, fmap_cons, fmap_app, fmap_cons.
    rewrite !sum_list_with_app. simpl. rewrite sum_list_with_app. simpl. lia.
Qed.

Lemma same_title_keeps_later_meeting_witness :
  let m1 := meeting_of "Sync" (Some {| dt_hour := 9; dt_minute := 0 |})
              "Ann" "ann@x.com" [new_AttendeeInfo "Bob" "bob@x.com"] in
  let m2 := meeting_of "Sync" (Some {| dt_hour := 15; dt_minute := 30 |})
              "Cy" "cy@x.com"
              [new_AttendeeInfo "Bob" "bob@x.com"; new_AttendeeInfo "Di" "di@x.com"] in
  exists view,
    dict_get "meeting_attendee_details"
      (get_attendee_info_for_day "2024-01-15" (day_of "2024-01-15" [m1; m2] []))
    = Some (PDict view)
    /\ dict_get "Sync" view
       = Some (PDict [("attendees",
                       PList [PDict [("name", PStr "Bob"); ("email", PStr "bob@x.com")];
                              PDict [("name", PStr "Di"); ("email", PStr "di@x.com")]]);
                      ("attendee_names", PList [PStr "Bob"; PStr "Di"]);
                      ("attendee_emails", PList [PStr "bob@x.com"; PStr "di@x.com"]);
                      ("organizer_name", PStr "Cy");
                      ("organizer_email", PStr "cy@x.com");
                      ("time", PStr "15:30")])
    /\ (forall entry, ("Sync", entry) ∈ view ->
          dict_get "organizer_name"
            match entry with PDict d => d | _ => [] end = Some (PStr "Cy"))
    /\ default 0 (dict_get "bob@x.com" (attendee_frequency (aggregate [m1; m2]))) = 2.
Proof.
  intros m1 m2.
  destruct (same_title_keeps_later_meeting "2024-01-15" [] [] [] [] m1 m2
              eq_refl (Forall_nil_2 _)) as (view & Hview & _ & Hentry & Honly & Hfreq).
  exists view. split; [exact Hview|]. split; [exact Hentry|]. split.
  - intros entry Hin. by rewrite (Honly entry Hin).
  - exact (Hfreq "bob@x.com" ltac:(discriminate)).
Defined.

(** ** The stable sort by count *)








Lemma lookup_lt_sublist {A} (l : list A) i j p q :
  i < j -> l !! i = Some p -> l !! j = Some q -> [p; q] `sublist_of` l.
Proof.
  intros Hij Hp Hq. rewrite <- (take_drop_middle l i p Hp).
  apply sublist_inserts_l, sublist_skip, singleton_sublist_l, list_elem_of_lookup.
  exists (j - S i). rewrite lookup_drop.
  by replace (S i + (j - S i)) with j by lia.
Qed.

Lemma sublist_pair_elem {A} (l : list A) p q :
  [p; q] `sublist_of` l -> p ∈ l /\ q ∈ l.
Proof.
  intros Hsub. split; eapply elem_of_sublist; [|exact Hsub| |exact Hsub];
    rewrite !elem_of_cons; auto.
Qed.

(** ** The order of the frequency dictionary *)

Lemma index_of_app_l (e : string) (l1 l2 : list string) :
  e ∈ l1 -> index_of e (l1 ++ l2) = index_of e l1.
Proof.
  induction l1 as [|x l1 IH]; simpl; intros He; [by apply elem_of_nil in He|].
  destruct (String.eqb_spec x e) as [|Hne]; [done|].
  apply elem_of_cons in He as [->|He]; [done|]. by rewrite IH.
Qed.

Lemma index_of_lt (e : string) (l : list string) : e ∈ l -> index_of e l < length l.
Proof.
  induction l as [|x l IH]; simpl; intros He; [by apply elem_of_nil in He|].
  destruct (String.eqb_spec x e) as [|Hne]; [lia|].
  apply elem_of_cons in He as [->|He]; [done|]. apply IH in He. lia.
Qed.

Lemma index_of_fresh (e : string) (l : list string) : e ∉ l -> index_of e (l ++ [e]) = length l.
Proof.
  induction l as [|x l IH]; simpl; intros He.
  - by rewrite String.eqb_refl.
  - apply not_elem_of_cons in He as [Hne He].
    destruct (String.eqb_spec x e) as [|_]; [congruence|]. by rewrite IH.
Qed.

(** The keys of the frequency dictionary are the addresses met, in the
    order in which each was met first. *)
Lemma tally_keys_order (l : list AttendeeInfo) :
  let ks := dict_keys (fold_left tally l []) in
  let met := filter (λ e, e ≠ "") (email <$> l) in
  (forall e, e ∈ ks <-> e ∈ met)
  /\ (forall e1 e2, [e1; e2] `sublist_of` ks -> index_of e1 met < index_of e2 met).
Proof.
  induction l as [|a l IH] using rev_ind.
  { split; [done|]. intros e1 e2 Hsub. by apply sublist_nil_r in Hsub. }
  destruct IH as [Hmem Hord]. cbn zeta.
  rewrite fold_left_app, fmap_app, filter_app. cbn [fold_left fmap list_fmap].
  rewrite filter_cons, filter_nil.
  set (freq := fold_left tally l []) in *. unfold tally.
  destruct (Str.nonempty (email a)) eqn:Ea.
  - apply nonempty_true in Ea. rewrite decide_True by done.
    rewrite dict_keys_set. case_decide as Hin.
    + apply Hmem in Hin. split.
      * intros e. rewrite Hmem, elem_of_app, list_elem_of_singleton.
        split; [tauto|]. by intros [?| ->].
      * intros e1 e2 Hsub.
        destruct (sublist_pair_elem _ _ _ Hsub) as [H1%Hmem H2%Hmem].
        rewrite !index_of_app_l by done. by apply Hord.
    + rewrite Hmem in Hin. split.
      * intros e. by rewrite !elem_of_app, Hmem.
      * intros e1 e2 (k1 & k2 & Hk & Hk1 & Hk2)%sublist_app_r.
        apply sublist_cons_r in Hk2 as [->%sublist_nil_r | (k' & -> & ->%sublist_nil_r)].
        -- rewrite app_nil_r in Hk. subst k1.
           destruct (sublist_pair_elem _ _ _ Hk1) as [H1%Hmem H2%Hmem].
           rewrite !index_of_app_l by done. by apply Hord.
        -- destruct k1 as [|x [|y k1]]; simplify_eq/=; [|by destruct k1].
           apply singleton_sublist_l, Hmem in Hk1.
           rewrite index_of_app_l, index_of_fresh by done. by apply index_of_lt.
  - apply nonempty_false in Ea. rewrite decide_False by (by intros ?).
    rewrite app_nil_r. by split.
Qed.

(** The view of the report is built, entry by entry, from the sorted
    slice. *)
Lemma report_most_frequent target_date (ms : list MeetingInfo) summary_info :
  ms <> [] ->
  dict_get "most_frequent_attendees"
    (get_attendee_info_for_day target_date (day_of target_date ms summary_info))
  = Some (PList (frequent_attendee (aggregate ms)
                   <$> most_frequent_pairs (aggregate ms))).
Proof. by destruct ms. Qed.



(** * Further properties of the day aggregate *)

(** ** The keys of the frequency dictionary *)

Lemma dict_get_None {V} (k : string) (d : list (string * V)) :
  dict_get k d = None <-> k ∉ dict_keys d.
Proof.
  induction d as [|[k0 v0] d IH]; simpl.
  - split; [intros _; apply not_elem_of_nil|done].
  - change (dict_keys ((k0, v0) :: d)) with (k0 :: dict_keys d).
    rewrite not_elem_of_cons. destruct (String.eqb_spec k0 k) as [->|Hne].
    + split; [done|]. by intros [? _].
    + rewrite IH. split; [by split; [congruence|]|by intros [_ ?]].
Qed.

Lemma dict_elem_get {V} (k : string) (v : V) (d : list (string * V)) :
  dict_get k d = Some v -> (k, v) ∈ d.
Proof.
  induction d as [|[k0 v0] d IH]; simpl; [done|].
  destruct (String.eqb_spec k0 k) as [->|_].
  - intros [= ->]. by left.
  - intros H. right. by apply IH.
Qed.

Lemma tally_NoDup (l : list AttendeeInfo) :
  forall freq, NoDup (dict_keys freq) -> NoDup (dict_keys (fold_left tally l freq)).
Proof.
  induction l as [|a l IH]; intros freq Hfreq; [done|].
  cbn [fold_left]. apply IH. unfold tally.
  destruct (Str.nonempty (email a)); [by apply dict_set_NoDup|done].
Qed.

Lemma elem_of_encounter_order (e : string) (ms : list MeetingInfo) :
  e ∈ encounter_order ms
  <-> e <> "" /\ exists m, m ∈ ms /\ e ∈ email <$> attendees m.
Proof.
  unfold encounter_order, observations.
  rewrite list_elem_of_filter, list_elem_of_fmap. split.
  - intros [He (a & -> & (m & Ha & Hm)%list_elem_of_bind)].
    split; [done|]. exists m. split; [done|]. by apply list_elem_of_fmap_2.
  - intros [He (m & Hm & (a & -> & Ha)%list_elem_of_fmap)].
    split; [done|]. exists a. split; [done|]. apply list_elem_of_bind. eauto.
Qed.

Lemma frequency_keys (ms : list MeetingInfo) :
  NoDup (dict_keys (attendee_frequency (aggregate ms)))
  /\ forall e, e ∈ dict_keys (attendee_frequency (aggregate ms))
               <-> e ∈ encounter_order ms.
Proof.
  rewrite aggregate_frequency. split.
  - apply tally_NoDup, NoDup_nil_2.
  - apply (tally_keys_order (observations ms)).
Qed.

(** ** Counts and names *)

(** X1.  The frequency of a non-empty address is the number of times the
    day's meetings list it, and an address that is not listed has no
    entry. *)
Theorem frequency_is_number_of_listings (ms : list MeetingInfo) (e : string) :
  e <> "" ->
  dict_get e (attendee_frequency (aggregate ms))
  = if decide (total_listed e ms = 0) then None else Some (total_listed e ms).
Proof.
  intros He. rewrite aggregate_frequency, tally_counts by done.
  unfold total_listed. rewrite <- listed_total.
  by destruct (listed e (observations ms)).
Qed.

Lemma frequency_is_number_of_listings_witness :
  let ms := [meeting_of "Standup" None "" ""
               [new_AttendeeInfo "" "x@a.com"; new_AttendeeInfo "" "y@a.com";
                new_AttendeeInfo "Ex" "x@a.com"];
             meeting_of "Review" None "" "" [new_AttendeeInfo "" "x@a.com"]] in
  dict_get "x@a.com" (attendee_frequency (aggregate ms)) = Some 3
  /\ dict_get "z@a.com" (attendee_frequency (aggregate ms)) = None.
Proof.
  intros ms. split.
  - exact (frequency_is_number_of_listings ms "x@a.com" ltac:(discriminate)).
  - exact (frequency_is_number_of_listings ms "z@a.com" ltac:(discriminate)).
Defined.

(** X2.  In the report of a day with meetings, [all_attendee_emails]
    holds each listed non-empty address once and nothing else, in the order
    of first encounter, and [unique_attendees] is its length. *)
Theorem unique_attendees_are_the_listed_addresses
    (target_date : string) (ms : list MeetingInfo)
    (summary_info : list (string * pyval)) :
  let report :=
    get_attendee_info_for_day target_date (day_of target_date ms summary_info) in
  ms <> [] ->
  exists emails,
    dict_get "all_attendee_emails" report = Some (PList (PStr <$> emails))
    /\ dict_get "unique_attendees" report = Some (PInt (length emails))
    /\ NoDup emails
    /\ (forall e, e ∈ emails
                  <-> e <> "" /\ exists m, m ∈ ms /\ e ∈ email <$> attendees m)
    /\ (forall i j e1 e2, i < j -> emails !! i = Some e1 -> emails !! j = Some e2 ->
          first_seen e1 ms < first_seen e2 ms).
Proof.
  intros report Hms.
  exists (dict_keys (attendee_frequency (aggregate ms))).
  destruct (frequency_keys ms) as [Hnd Hmem].
  split_and!.
  - subst report. destruct ms; [done|]. cbn. done.
  - subst report. destruct ms; [done|]. cbn. unfold dict_keys.
    by rewrite length_fmap.
  - done.
  - intros e. by rewrite Hmem, elem_of_encounter_order.
  - intros i j e1 e2 Hij H1 H2. rewrite aggregate_frequency in H1, H2.
    apply (tally_keys_order (observations ms)).
    by eapply lookup_lt_sublist.
Qed.

Lemma unique_attendees_are_the_listed_addresses_witness :
  let ms := [meeting_of "Standup" None "" ""
               [new_AttendeeInfo "" "x@a.com"; new_AttendeeInfo "" "y@a.com"];
             meeting_of "Review" None "" ""
               [new_AttendeeInfo "" "y@a.com"; new_AttendeeInfo "" "x@a.com"]] in
  exists emails : list string,
    dict_get "unique_attendees"
      (get_attendee_info_for_day "2024-01-15" (day_of "2024-01-15" ms []))
    = Some (PInt (length emails))
    /\ NoDup emails.
Proof.
  intros ms.
  destruct (unique_attendees_are_the_listed_addresses "2024-01-15" ms []
              ltac:(discriminate)) as (emails & _ & Hn & Hnd & _).
  exists emails. by split.
Defined.

Lemma remember_keys (l : list AttendeeInfo) :
  forall names freq,
    dict_keys names = dict_keys freq ->
    dict_keys (fold_left remember l names) = dict_keys (fold_left tally l freq).
Proof.
  induction l as [|a l IH]; intros names freq Hkeys; [done|].
  cbn [fold_left]. apply IH. unfold remember, tally.
  destruct (Str.nonempty (email a)); [|done].
  by rewrite !dict_keys_set, Hkeys.
Qed.

Lemma dict_as_map {V} (f : string -> V) (d : list (string * V)) :
  (forall k v, (k, v) ∈ d -> v = f k) -> d = (λ k, (k, f k)) <$> dict_keys d.
Proof.
  induction d as [|[k v] d IH]; intros Hf; [done|].
  change (dict_keys ((k, v) :: d)) with (k :: dict_keys d).
  rewrite fmap_cons, <- IH.
  - by rewrite (Hf k v) by left.
  - intros k' v' Hin. apply Hf. by right.
Qed.

(** The name dictionary has the keys of the frequency dictionary, in the
    same order, and holds for each address the display name of its last
    listing. *)
Lemma name_mapping_by_address (ms : list MeetingInfo) :
  attendee_name_mapping (aggregate ms)
  = (λ e, (e, last_name e ms)) <$> dict_keys (attendee_frequency (aggregate ms)).
Proof.
  destruct (frequency_keys ms) as [Hnd Hmem].
  assert (dict_keys (attendee_name_mapping (aggregate ms))
          = dict_keys (attendee_frequency (aggregate ms))) as Hkeys.
  { rewrite aggregate_names, aggregate_frequency. by apply remember_keys. }
  rewrite <- Hkeys. apply dict_as_map. intros e n Hin.
  assert (e <> "") as He.
  { apply (list_elem_of_fmap_2 fst) in Hin. fold (dict_keys (attendee_name_mapping
      (aggregate ms))) in Hin. rewrite Hkeys in Hin.
    by apply Hmem, elem_of_encounter_order in Hin as [? _]. }
  apply dict_get_elem in Hin; [|by rewrite Hkeys].
  rewrite aggregate_names, remember_last in Hin by done.
  unfold last_name. by destruct (last _); simplify_eq/=.
Qed.

Lemma listed_last_of_met (e : string) (ms : list MeetingInfo) :
  e ∈ encounter_order ms ->
  exists a, last (listed e (observations ms)) = Some a.
Proof.
  unfold encounter_order. intros [_ (a & -> & Ha)%list_elem_of_fmap]%list_elem_of_filter.
  assert (a ∈ listed (email a) (observations ms)) as Hin
    by by apply list_elem_of_filter.
  destruct (last (listed (email a) (observations ms))) as [b|] eqn:Hlast; [by exists b|].
  apply last_None in Hlast. rewrite Hlast in Hin. by apply elem_of_nil in Hin.
Qed.

(** X3.  In the report of a day with meetings, [all_attendee_names] runs
    alongside [all_attendee_emails]: the two lists have the same length,
    and the name at a position is the display name under which the address
    at that position was listed last in the day. *)
Theorem names_follow_addresses
    (target_date : string) (ms : list MeetingInfo)
    (summary_info : list (string * pyval)) :
  let report :=
    get_attendee_info_for_day target_date (day_of target_date ms summary_info) in
  ms <> [] ->
  exists emails names : list string,
    dict_get "all_attendee_emails" report = Some (PList (PStr <$> emails))
    /\ dict_get "all_attendee_names" report = Some (PList (PStr <$> names))
    /\ length names = length emails
    /\ forall i e, emails !! i = Some e ->
         exists a, last (listed e (observations ms)) = Some a
                   /\ names !! i = Some (display_name a).
Proof.
  intros report Hms.
  exists (dict_keys (attendee_frequency (aggregate ms))),
         (dict_values (attendee_name_mapping (aggregate ms))).
  assert (dict_values (attendee_name_mapping (aggregate ms))
          = (λ e, last_name e ms) <$> dict_keys (attendee_frequency (aggregate ms)))
    as Hnames.
  { rewrite name_mapping_by_address. unfold dict_values.
    rewrite <- list_fmap_compose. done. }
  split_and!.
  - subst report. by destruct ms.
  - subst report. by destruct ms.
  - by rewrite Hnames, length_fmap.
  - intros i e Hi.
    assert (e ∈ encounter_order ms) as Hmet.
    { apply (frequency_keys ms), list_elem_of_lookup. by exists i. }
    destruct (listed_last_of_met e ms Hmet) as [a Ha]. exists a. split; [done|].
    rewrite Hnames, list_lookup_fmap, Hi. cbn [fmap option_fmap option_map].
    unfold last_name. by rewrite Ha.
Qed.

Lemma names_follow_addresses_witness :
  let ms := [meeting_of "Standup" None "" ""
               [new_AttendeeInfo "Ex" "x@a.com"; new_AttendeeInfo "Why" "y@a.com"];
             meeting_of "Review" None "" "" [new_AttendeeInfo "Xavier" "x@a.com"]] in
  let report := get_attendee_info_for_day "2024-01-15" (day_of "2024-01-15" ms []) in
  dict_get "all_attendee_emails" report = Some (PList [PStr "x@a.com"; PStr "y@a.com"])
  /\ dict_get "all_attendee_names" report = Some (PList [PStr "Xavier"; PStr "Why"])
  /\ exists emails names : list string,
       dict_get "all_attendee_names" report = Some (PList (PStr <$> names))
       /\ length names = length emails.
Proof.
  intros ms report. split; [reflexivity|]. split; [reflexivity|].
  destruct (names_follow_addresses "2024-01-15" ms [] ltac:(discriminate))
    as (emails & names & _ & Hn & Hlen & _).
  exists emails, names. by split.
Defined.

Lemma dict_set_incr_sum (k : string) (d : list (string * nat)) :
  sum_list (dict_values (dict_set k (default 0 (dict_get k d) + 1) d))
  = S (sum_list (dict_values d)).
Proof.
  induction d as [|[k0 v0] d IH]; [done|]. simpl.
  destruct (String.eqb_spec k0 k) as [->|Hne]; simpl.
  - unfold dict_values. simpl. lia.
  - unfold dict_values in *. simpl. rewrite IH. lia.
Qed.

Lemma dict_set_Forall {V} (P : V -> Prop) k v (d : list (string * V)) :
  P v -> Forall P (dict_values d) -> Forall P (dict_values (dict_set k v d)).
Proof.
  intros Hv. unfold dict_values.
  induction d as [|[k0 v0] d IH]; simpl; intros Hd; [by repeat constructor|].
  apply Forall_cons in Hd as [H0 Hd].
  destruct (String.eqb_spec k0 k); simpl; constructor; auto.
Qed.

Lemma tally_sum (l : list AttendeeInfo) :
  forall freq,
    sum_list (dict_values (fold_left tally l freq))
    = sum_list (dict_values freq) + length (filter (λ a, email a ≠ "") l).
Proof.
  induction l as [|a l IH]; intros freq; [simpl; lia|].
  cbn [fold_left]. rewrite IH, filter_cons. unfold tally.
  destruct (Str.nonempty (email a)) eqn:Ea.
  - apply nonempty_true in Ea. rewrite decide_True by done.
    rewrite dict_set_incr_sum. simpl. lia.
  - apply nonempty_false in Ea. by rewrite decide_False by (by intros ?).
Qed.

Lemma tally_positive (l : list AttendeeInfo) :
  forall freq,
    Forall (λ c, 1 ≤ c) (dict_values freq) ->
    Forall (λ c, 1 ≤ c) (dict_values (fold_left tally l freq)).
Proof.
  induction l as [|a l IH]; intros freq Hfreq; [done|].
  cbn [fold_left]. apply IH. unfold tally.
  destruct (Str.nonempty (email a)); [|done].
  apply dict_set_Forall; [lia|done].
Qed.

Lemma positive_length_le_sum (counts : list nat) :
  Forall (λ c, 1 ≤ c) counts -> length counts ≤ sum_list counts.
Proof. induction 1 as [|c counts Hc _ IH]; simpl; lia. Qed.

(** X4.  The counts of the frequency dictionary add up to the number of
    attendee records of the day that carry an address; every count is at
    least one, so the number of unique attendees never exceeds that
    total. *)
Theorem frequencies_sum_to_listings (ms : list MeetingInfo) :
  let counts := dict_values (attendee_frequency (aggregate ms)) in
  sum_list counts = length (filter (λ a, email a ≠ "") (observations ms))
  /\ Forall (λ c, 1 ≤ c) counts
  /\ length (attendee_frequency (aggregate ms))
     ≤ length (filter (λ a, email a ≠ "") (observations ms)).
Proof.
  intros counts. subst counts. rewrite aggregate_frequency.
  assert (Forall (λ c, 1 ≤ c) (dict_values (fold_left tally (observations ms) [])))
    as Hpos by (apply tally_positive; constructor).
  split_and!; [by rewrite tally_sum|done|].
  pose proof (tally_sum (observations ms) []) as Hsum.
  apply positive_length_le_sum in Hpos.
  unfold dict_values in Hpos, Hsum. rewrite length_fmap in Hpos. simpl in Hsum. lia.
Qed.

(** ** The most-frequent view *)






(** ** The summary and the report *)

Lemma add_emails_elem (l : list AttendeeInfo) :
  forall (S : gset string) (e : string),
    e ∈ fold_left add_attendee_email l S
    <-> e ∈ S \/ (e <> "" /\ e ∈ email <$> l).
Proof.
  induction l as [|a l IH]; intros S e.
  - simpl. rewrite elem_of_nil. tauto.
  - cbn [fold_left]. rewrite IH, fmap_cons, elem_of_cons. unfold add_attendee_email.
    destruct (Str.nonempty (email a)) eqn:Ea.
    + apply nonempty_true in Ea. rewrite elem_of_union, elem_of_singleton.
      split.
      * intros [[?| ->]|[? ?]]; auto.
      * intros [?|[? [-> |?]]]; auto.
    + apply nonempty_false in Ea. split.
      * intros [?|[? ?]]; auto.
      * intros [?|[? [-> |?]]]; auto. done.
Qed.

Lemma collect_attendees_elem (ms : list MeetingInfo) (e : string) :
  e ∈ collect_attendees ms <-> e ∈ encounter_order ms.
Proof.
  unfold collect_attendees.
  assert (forall S : gset string,
            e ∈ fold_left (λ total meeting,
                             fold_left add_attendee_email (attendees meeting) total)
                          ms S
            <-> e ∈ S \/ e ∈ encounter_order ms) as H.
  { induction ms as [|m ms IH]; intros S.
    - rewrite elem_of_encounter_order. simpl. split; [auto|].
      intros [?|[_ (m & Hm & _)]]; [done|]. by apply elem_of_nil in Hm.
    - cbn [fold_left]. rewrite IH, add_emails_elem, !elem_of_encounter_order.
      split.
      + intros [[?|[He Hin]]|[He (m' & Hm' & Hin)]]; auto.
        * right. split; [done|]. exists m. split; [by left|done].
        * right. split; [done|]. exists m'. split; [by right|done].
      + intros [?|[He (m' & [-> |Hm']%elem_of_cons & Hin)]]; auto.
        right. split; [done|]. eauto. }
  rewrite H. rewrite elem_of_empty. tauto.
Qed.

Lemma summary_fields (openai_api_key : bool) ai str_total_duration
    (ms : list MeetingInfo) (target_date : string) :
  ms <> [] ->
  dict_get "total_unique_attendees"
    (_analyze_day_events openai_api_key ai str_total_duration ms target_date)
  = Some (PInt (size (collect_attendees ms)))
  /\ dict_get "attendee_emails"
       (_analyze_day_events openai_api_key ai str_total_duration ms target_date)
     = Some (PList (PStr <$> elements (collect_attendees ms))).
Proof. by destruct ms. Qed.

(** X6.  The two aggregations of a day agree: the set of addresses the
    summary collects is the key set of the report's frequency dictionary,
    so [total_unique_attendees] of the summary equals [unique_attendees] of
    the report, and the summary's [attendee_emails] is a rearrangement of
    the report's [all_attendee_emails]. *)
Theorem summary_and_report_agree
    (openai_api_key : bool) (ai : list MeetingInfo -> string -> string)
    (str_total_duration : list MeetingInfo -> string)
    (target_date : string) (ms : list MeetingInfo)
    (summary_info : list (string * pyval)) :
  let summary := _analyze_day_events openai_api_key ai str_total_duration ms target_date in
  let report :=
    get_attendee_info_for_day target_date (day_of target_date ms summary_info) in
  ms <> [] ->
  exists (n : nat) (summary_emails report_emails : list string),
    dict_get "total_unique_attendees" summary = Some (PInt n)
    /\ dict_get "unique_attendees" report = Some (PInt n)
    /\ dict_get "attendee_emails" summary = Some (PList (PStr <$> summary_emails))
    /\ dict_get "all_attendee_emails" report = Some (PList (PStr <$> report_emails))
    /\ summary_emails ≡ₚ report_emails.
Proof.
  intros summary report Hms.
  destruct (frequency_keys ms) as [Hnd Hmem].
  assert (collect_attendees ms
          = list_to_set (dict_keys (attendee_frequency (aggregate ms)))) as Hset.
  { apply set_eq. intros e.
    by rewrite collect_attendees_elem, elem_of_list_to_set, Hmem. }
  exists (length (attendee_frequency (aggregate ms))),
    (elements (collect_attendees ms)),
    (dict_keys (attendee_frequency (aggregate ms))).
  destruct (summary_fields openai_api_key ai str_total_duration ms target_date Hms)
    as [Hsize Hemails].
  split_and!.
  - subst summary. rewrite Hsize, Hset, size_list_to_set by done.
    unfold dict_keys. by rewrite length_fmap.
  - by destruct ms.
  - done.
  - by destruct ms.
  - rewrite Hset. by apply elements_list_to_set.
Qed.

Lemma summary_and_report_agree_witness :
  let ms := [meeting_of "Standup" None "" ""
               [new_AttendeeInfo "" "x@a.com"; new_AttendeeInfo "" "y@a.com"];
             meeting_of "Review" None "" "" [new_AttendeeInfo "" "x@a.com"]] in
  exists n : nat,
    dict_get "total_unique_attendees"
      (_analyze_day_events false (λ _ _, "") (λ _, "1:00:00") ms "2024-01-15")
    = Some (PInt n)
    /\ dict_get "unique_attendees"
         (get_attendee_info_for_day "2024-01-15" (day_of "2024-01-15" ms []))
       = Some (PInt n).
Proof.
  intros ms.
  destruct (summary_and_report_agree false (λ _ _, "") (λ _, "1:00:00")
              "2024-01-15" ms [] ltac:(discriminate))
    as (n & ? & ? & H1 & H2 & _).
  exists n. by split.
Defined.

(** ** The per-meeting view *)

(** X7.  The per-meeting view has one entry for each distinct title of the
    day, so never more entries than meetings, and the entry under a title
    is the one built from the last meeting with that title. *)
Theorem per_meeting_view_by_title (ms : list MeetingInfo) :
  let view := meeting_attendee_mapping (aggregate ms) in
  NoDup (dict_keys view)
  /\ (forall t, t ∈ dict_keys view <-> t ∈ meeting_title <$> ms)
  /\ length view ≤ length ms
  /\ (forall t, dict_get t view
                = (λ m, meeting_entry (attendee_detail <$> attendees m) m)
                    <$> last (filter (λ m, meeting_title m = t) ms)).
Proof.
  intros view. subst view. rewrite aggregate_view.
  assert (forall t, dict_get t (fold_left store_meeting ms [])
                    = (λ m, meeting_entry (attendee_detail <$> attendees m) m)
                        <$> last (filter (λ m, meeting_title m = t) ms)) as Hget.
  { intros t. rewrite store_last. by destruct (last _). }
  assert (NoDup (dict_keys (fold_left store_meeting ms []))) as Hnd
    by apply store_NoDup, NoDup_nil_2.
  assert (forall t, t ∈ dict_keys (fold_left store_meeting ms [])
                    <-> t ∈ meeting_title <$> ms) as Hmem.
  { intros t. split.
    - intros Hin. destruct (dict_get t (fold_left store_meeting ms [])) eqn:E.
      + rewrite Hget in E.
        destruct (last _) as [m|] eqn:El; [|done].
        apply last_Some_elem_of, list_elem_of_filter in El as [<- Hm].
        by apply list_elem_of_fmap_2.
      + by apply dict_get_None in E.
    - intros (m & -> & Hm)%list_elem_of_fmap.
      destruct (decide (meeting_title m ∈ dict_keys (fold_left store_meeting ms [])))
        as [|Hout]; [done|].
      apply dict_get_None in Hout. rewrite Hget in Hout.
      destruct (last _) eqn:El; [done|]. apply last_None in El.
      assert (m ∈ filter (λ m0, meeting_title m0 = meeting_title m) ms) as Hf
        by by apply list_elem_of_filter.
      rewrite El in Hf. by apply elem_of_nil in Hf. }
  split_and!; [done|done| |done].
  transitivity (length (meeting_title <$> ms)); [|by rewrite length_fmap].
  transitivity (length (dict_keys (fold_left store_meeting ms [])));
    [unfold dict_keys; by rewrite length_fmap|].
  apply submseteq_length, NoDup_submseteq; [done|]. intros t. by rewrite Hmem.
Qed.

Lemma per_meeting_view_by_title_witness :
  let m1 := meeting_of "Sync" None "Ann" "ann@x.com" [new_AttendeeInfo "Bob" "bob@x.com"] in
  let m2 := meeting_of "Sync" None "Cy" "cy@x.com" [] in
  "Sync" ∈ dict_keys (meeting_attendee_mapping (aggregate [m1; m2]))
  /\ length (meeting_attendee_mapping (aggregate [m1; m2])) ≤ 2.
Proof.
  intros m1 m2.
  destruct (per_meeting_view_by_title [m1; m2]) as (_ & Hmem & Hlen & _).
  split; [|exact Hlen]. apply Hmem. by left.
Defined.

(** * Further properties of attendee extraction *)

Lemma final_name_display (name email : string) :
  email <> "" ->
  let final := if Str.nonempty name then name else _extract_name_from_email email in
  display_name (new_AttendeeInfo final email) = final.
Proof.
  intros He final. unfold new_AttendeeInfo. cbn [display_name].
  destruct (Str.nonempty final) eqn:Hf; [done|].
  apply nonempty_false in Hf. rewrite Hf.
  apply nonempty_true in He as He'. rewrite He'.
  apply dataclass_name_empty; [done|]. apply classify_empty.
  subst final. destruct (Str.nonempty name) eqn:Hn.
  - apply nonempty_true in Hn. congruence.
  - unfold _extract_name_from_email in Hf. by rewrite He' in Hf.
Qed.

Lemma resolve_attendee_enhanced_shape people gmail (a : gmap string string) info :
  resolve_attendee_enhanced people gmail a = Some info ->
  get_str a "email" <> "" /\ email info = get_str a "email"
  /\ display_name info = name info.
Proof.
  unfold resolve_attendee_enhanced.
  destruct (Str.nonempty (get_str a "email")) eqn:He; [|done].
  apply nonempty_true in He. intros [= <-]. split; [done|]. split; [done|].
  by rewrite final_name_display.
Qed.

Lemma resolve_attendee_shape (a : gmap string string) info :
  resolve_attendee a = Some info ->
  get_str a "email" <> "" /\ email info = get_str a "email"
  /\ display_name info = name info.
Proof.
  unfold resolve_attendee.
  destruct (Str.nonempty (get_str a "email")) eqn:He; [|done].
  apply nonempty_true in He. intros [= <-]. split; [done|]. split; [done|].
  by rewrite final_name_display.
Qed.

Lemma fold_append_resolved_enhanced people gmail (raw : list (gmap string string)) :
  forall acc,
    fold_left (append_resolved_enhanced people gmail) raw acc
    = acc ++ omap (resolve_attendee_enhanced people gmail) raw.
Proof.
  induction raw as [|a raw IH]; intros acc; simpl.
  - by rewrite app_nil_r.
  - rewrite IH. unfold append_resolved_enhanced.
    destruct (resolve_attendee_enhanced people gmail a); [by rewrite <- app_assoc|done].
Qed.

(** X8.  Every attendee record built from an event, with or without
    look-ups, carries a non-empty e-mail taken from a record of the
    payload, and a display name equal to its name: the heuristic of the
    dataclass never changes what the agent has chosen. *)
Theorem built_attendees_are_well_formed people gmail (ev : event) (info : AttendeeInfo) :
  info ∈ (extract_attendee_info ev).1.1
  \/ info ∈ (extract_attendee_info_enhanced people gmail ev).1.1 ->
  email info <> ""
  /\ display_name info = name info
  /\ exists attendee, attendee ∈ default [] (ev_attendees ev)
                      /\ email info = get_str attendee "email".
Proof.
  unfold extract_attendee_info, extract_attendee_info_enhanced.
  destruct (resolve_organizer _) as [n1 e1].
  destruct (resolve_organizer_enhanced _ _) as [n2 e2]. cbn [fst].
  rewrite fold_append_resolved, fold_append_resolved_enhanced. simpl.
  intros [(a & Ha & Hr)%list_elem_of_omap | (a & Ha & Hr)%list_elem_of_omap].
  - apply resolve_attendee_shape in Hr as (He & Hemail & Hd).
    split; [congruence|]. split; [done|]. eauto.
  - apply resolve_attendee_enhanced_shape in Hr as (He & Hemail & Hd).
    split; [congruence|]. split; [done|]. eauto.
Qed.

Lemma built_attendees_are_well_formed_witness :
  let ev := {| ev_organizer := None;
               ev_attendees := Some [ {[ "email" := "42@x.com" ]};
                                      {[ "email" := "j.smith@x.com" ]} ] |} in
  let info := {| name := "J Smith"; email := "j.smith@x.com";
                 display_name := "J Smith" |} in
  email info <> "" /\ display_name info = name info.
Proof.
  intros ev info.
  destruct (built_attendees_are_well_formed None None ev info) as (He & Hd & _).
  { left. apply list_elem_of_lookup. by exists 1. }
  by split.
Defined.

Lemma resolve_attendee_explicit (a : gmap string string) :
  resolve_attendee a
  = if Str.nonempty (get_str a "email") then
      Some (new_AttendeeInfo
              (if Str.nonempty (explicit_name a) then explicit_name a
               else _extract_name_from_email (get_str a "email"))
              (get_str a "email"))
    else None.
Proof.
  unfold resolve_attendee, explicit_name.
  destruct (Str.nonempty (get_str a "displayName")) eqn:E1;
    cbv iota; rewrite ?E1; [done|].
  by destruct (Str.nonempty (get_str a "name")) eqn:E2; cbv iota; rewrite ?E2.
Qed.

Lemma resolve_attendee_enhanced_explicit people gmail (a : gmap string string) :
  resolve_attendee_enhanced people gmail a
  = let email := get_str a "email" in
    if Str.nonempty email then
      let name := explicit_name a in
      let name :=
        if negb (Str.nonempty name) && bool_decide (is_Some people)
        then take_if_found (get_contact_name_from_people_api people email) name
        else name in
      let name :=
        if negb (Str.nonempty name) && bool_decide (is_Some gmail)
        then take_if_found (get_contact_name_from_gmail_api gmail email) name
        else name in
      Some (new_AttendeeInfo
              (if Str.nonempty name then name else _extract_name_from_email email)
              email)
    else None.
Proof.
  unfold resolve_attendee_enhanced, explicit_name.
  destruct (Str.nonempty (get_str a "displayName")) eqn:E1;
    cbv iota; rewrite ?E1; [done|].
  by destruct (Str.nonempty (get_str a "name")) eqn:E2; cbv iota; rewrite ?E2.
Qed.

(** X9.  A name stated in the payload wins: for a record with an e-mail
    whose [displayName], [name] or [cn] is non-empty, the first non-empty
    one of the three, in that order, becomes both name and display name,
    and the builder with look-ups gives the same record whatever the
    services would answer. *)
Theorem explicit_name_wins people gmail (attendee : gmap string string) :
  get_str attendee "email" <> "" ->
  explicit_name attendee <> "" ->
  resolve_attendee attendee
  = Some {| name := explicit_name attendee;
            email := get_str attendee "email";
            display_name := explicit_name attendee |}
  /\ resolve_attendee_enhanced people gmail attendee = resolve_attendee attendee.
Proof.
  intros He%nonempty_true Hx%nonempty_true.
  rewrite resolve_attendee_enhanced_explicit, resolve_attendee_explicit.
  cbn zeta. rewrite He. do 3 (rewrite ?Hx; cbn [negb andb]).
  unfold new_AttendeeInfo. by rewrite Hx.
Qed.

Lemma explicit_name_wins_witness :
  resolve_attendee {[ "email" := "b@x.com"; "name" := "Bea"; "cn" := "Beatrice" ]}
  = Some {| name := "Bea"; email := "b@x.com"; display_name := "Bea" |}.
Proof.
  refine (proj1 (explicit_name_wins None None
                   {[ "email" := "b@x.com"; "name" := "Bea"; "cn" := "Beatrice" ]}
                   _ _)); vm_compute; congruence.
Defined.

Lemma take_if_found_nothing (found : option string) (name : string) :
  default "" found = "" -> take_if_found found name = name.
Proof. destruct found as [n|]; simpl; [intros ->|]; done. Qed.

(** X10.  Look-ups that find nothing change nothing: when, for every
    address, the directory and the mailbox give no name (the service is
    missing, the call fails, nothing is found, or the name found is empty),
    the builder with look-ups returns what the basic builder returns,
    organizer included. *)
Theorem lookups_that_find_nothing people gmail (ev : event) :
  (forall e, default "" (get_contact_name_from_people_api people e) = "") ->
  (forall e, default "" (get_contact_name_from_gmail_api gmail e) = "") ->
  extract_attendee_info_enhanced people gmail ev = extract_attendee_info ev.
Proof.
  intros Hpeople Hgmail.
  assert (forall a, resolve_attendee_enhanced people gmail a = resolve_attendee a) as Hres.
  { intros a. rewrite resolve_attendee_enhanced_explicit, resolve_attendee_explicit.
    cbn zeta. destruct (Str.nonempty (get_str a "email")); [|done].
    rewrite !take_if_found_nothing by done.
    assert (forall (b : bool) (x : string), (if b then x else x) = x) as Hif
      by by intros [].
    by rewrite !Hif. }
  unfold extract_attendee_info_enhanced, extract_attendee_info.
  assert (resolve_organizer_enhanced people (default ∅ (ev_organizer ev))
          = resolve_organizer (default ∅ (ev_organizer ev))) as ->.
  { unfold resolve_organizer_enhanced, resolve_organizer.
    rewrite take_if_found_nothing by done.
    assert (forall (b : bool) (x : string), (if b then x else x) = x) as Hif
      by by intros [].
    by rewrite !Hif. }
  destruct (resolve_organizer _) as [n e]. do 2 f_equal.
  rewrite fold_append_resolved, fold_append_resolved_enhanced. f_equal.
  induction (default [] (ev_attendees ev)) as [|a l IH]; [done|].
  cbn [omap list_omap]. rewrite Hres. fold (omap resolve_attendee l).
  fold (omap (resolve_attendee_enhanced people gmail) l). by rewrite IH.
Qed.

Lemma lookups_that_find_nothing_witness :
  let ev := {| ev_organizer := Some {[ "email" := "ann.lee@x.com" ]};
               ev_attendees := Some [ {[ "email" := "j.smith@x.com" ]} ] |} in
  extract_attendee_info_enhanced None (Some (λ _, None)) ev = extract_attendee_info ev.
Proof.
  intros ev. apply lookups_that_find_nothing; done.
Defined.

(** X11.  With look-ups, for a record with an e-mail and no name of its
    own, a non-empty name from the directory is taken and the mailbox is
    not asked; the mailbox's name is taken only when the directory gives
    none. *)
Theorem directory_before_mailbox people gmail (attendee : gmap string string) (n : string) :
  let email := get_str attendee "email" in
  email <> "" ->
  explicit_name attendee = "" ->
  n <> "" ->
  (get_contact_name_from_people_api people email = Some n ->
     resolve_attendee_enhanced people gmail attendee
     = Some {| name := n; email := email; display_name := n |})
  /\ (default "" (get_contact_name_from_people_api people email) = "" ->
      get_contact_name_from_gmail_api gmail email = Some n ->
      resolve_attendee_enhanced people gmail attendee
      = Some {| name := n; email := email; display_name := n |}).
Proof.
  intros e He%nonempty_true Hx%nonempty_false Hn%nonempty_true.
  rewrite resolve_attendee_enhanced_explicit. cbn zeta. fold e.
  rewrite He, Hx. cbn [negb andb Str.nonempty]. split.
  - intros Hp. assert (is_Some people) as Hsome.
    { unfold get_contact_name_from_people_api in Hp. by destruct people. }
    rewrite (bool_decide_eq_true_2 _ Hsome), Hp. cbn [take_if_found].
    do 4 (rewrite ?Hn; cbn [negb andb]). unfold new_AttendeeInfo. by rewrite Hn.
  - intros Hp Hg. assert (is_Some gmail) as Hsome.
    { unfold get_contact_name_from_gmail_api in Hg. by destruct gmail. }
    rewrite (take_if_found_nothing _ _ Hp).
    assert (forall (b : bool) (x : string), (if b then x else x) = x) as Hif
      by by intros [].
    rewrite !Hif, Hx. cbn [negb andb].
    rewrite (bool_decide_eq_true_2 _ Hsome), Hg. cbn [take_if_found].
    do 4 (rewrite ?Hn; cbn [negb andb]). unfold new_AttendeeInfo. by rewrite Hn.
Qed.

Lemma directory_before_mailbox_witness :
  resolve_attendee_enhanced
    (Some (λ _, Some "Jo Smith"))
    (Some (λ _, Some [[ {[ "name" := "From"; "value" := "Joey <j.smith@x.com>" ]} ]]))
    {[ "email" := "j.smith@x.com" ]}
  = Some {| name := "Jo Smith"; email := "j.smith@x.com"; display_name := "Jo Smith" |}.
Proof.
  refine (proj1 (directory_before_mailbox
                   (Some (λ _, Some "Jo Smith"))
                   (Some (λ _, Some [[ {[ "name" := "From";
                                          "value" := "Joey <j.smith@x.com>" ]} ]]))
                   {[ "email" := "j.smith@x.com" ]} "Jo Smith" _ _ _) _);
    vm_compute; congruence.
Defined.

(** * Further properties of the From-header parser *)

Lemma drop_while_keeps_last p x c :
  p c = false ->
  exists y, Str.drop_while p (x +:+ String c "") = y +:+ String c "".
Proof.
  intros Hc. induction x as [|d x IH].
  - exists "". simpl. by rewrite Hc.
  - change (String d x +:+ String c "") with (String d (x +:+ String c "")).
    simpl. destruct (p d); [done|]. by exists (String d x).
Qed.

Lemma rstrip_first p s : first_is p s = false -> first_is p (Str.rstrip p s) = false.
Proof.
  destruct s as [|c r]; [done|]. simpl. intros Hc. unfold Str.rstrip.
  rewrite rev_cons. destruct (drop_while_keeps_last p (Str.rev r) c Hc) as [y ->].
  by rewrite rev_snoc.
Qed.

Lemma rstrip_last p s : last_is p (Str.rstrip p s) = false.
Proof. unfold last_is, Str.rstrip. rewrite rev_involutive. apply drop_while_head. Qed.

(** What [str.strip] returns neither starts nor ends with a character of
    the set it strips. *)
Lemma strip_both_ends p s :
  first_is p (Str.strip p s) = false /\ last_is p (Str.strip p s) = false.
Proof.
  unfold Str.strip. split; [|apply rstrip_last].
  apply rstrip_first. unfold Str.lstrip, first_is. apply drop_while_head.
Qed.

(** X12.  A name returned for a From header is cleaned at both ends.  In
    the layout with angle brackets it neither starts nor ends with a quote
    character.  In the layout with parentheses, tried only when [<] or [>]
    is missing, it is non-empty, differs from the known address and
    neither starts nor ends with white space. *)
Theorem from_header_name_is_clean (from_field email n : string) :
  parse_from_header from_field email = Some n ->
  if Str.contains_char lt_sign from_field && Str.contains_char gt_sign from_field
  then first_is Char.is_quote n = false /\ last_is Char.is_quote n = false
  else n <> "" /\ n <> email
       /\ first_is Char.is_space n = false /\ last_is Char.is_space n = false.
Proof.
  unfold parse_from_header.
  destruct (Str.contains_char lt_sign from_field && Str.contains_char gt_sign from_field).
  - destruct (_ && _); [|done]. intros [= <-]. apply strip_both_ends.
  - destruct (Str.contains_char lparen from_field && Str.contains_char rparen from_field);
      [|done].
    destruct (Str.nonempty _) eqn:Hne; [|done].
    destruct (String.eqb _ email) eqn:Heq; [done|]. intros [= <-].
    apply nonempty_true in Hne. apply String.eqb_neq in Heq.
    split; [done|]. split; [done|]. apply strip_both_ends.
Qed.

Lemma from_header_name_is_clean_witness :
  first_is Char.is_space "Ann Lee" = false /\ "Ann Lee" <> "ann@x.com".
Proof.
  pose proof (from_header_name_is_clean "ann@x.com ( Ann Lee )" "ann@x.com" "Ann Lee"
                eq_refl) as (_ & Hdiff & Hfirst & _).
  by split.
Defined.

Lemma first_return_concat {A B} (body : A -> option B) (ls : list (list A)) :
  first_return (first_return body) ls = first_return body (concat ls).
Proof.
  induction ls as [|l ls IH]; [done|]. simpl. rewrite IH. clear IH.
  induction l as [|x l IHl]; [done|]. simpl. by destruct (body x).
Qed.

Lemma first_return_from_headers (email : string) (headers : list (gmap string string)) :
  first_return (scan_header email) headers
  = first_return (λ value, parse_from_header value email)
      ((λ header, get_str header "value")
         <$> filter (λ header, Str.lower (get_str header "name") = "from") headers).
Proof.
  induction headers as [|h headers IH]; [done|].
  rewrite filter_cons. simpl. unfold scan_header at 1.
  destruct (String.eqb_spec (Str.lower (get_str h "name")) "from") as [Hfrom|Hother].
  - rewrite decide_True by done. simpl.
    by destruct (parse_from_header _ _).
  - by rewrite decide_False by done.
Qed.

(** X13.  The mailbox look-up answers with the first name that a From
    header yields, the headers taken message after message in the order
    received, the header name compared without regard to case; headers of
    other names and the grouping into messages play no part.  It answers
    with nothing when the service is missing or its call fails. *)
Theorem mailbox_lookup_is_first_from_header
    (gmail : option (string -> option (list (list (gmap string string)))))
    (email : string) :
  get_contact_name_from_gmail_api gmail email
  = match gmail with
    | Some fetch =>
        match fetch email with
        | Some messages =>
            first_return (λ value, parse_from_header value email)
              (from_header_values messages)
        | None => None
        end
    | None => None
    end.
Proof.
  unfold get_contact_name_from_gmail_api, from_header_values.
  destruct gmail as [fetch|]; [|done]. destruct (fetch email) as [messages|]; [|done].
  by rewrite first_return_concat, first_return_from_headers.
Qed.

(** * Further properties of the e-mail name heuristic *)

(** ** Letter case *)

Lemma to_lower_facts c :
  Char.is_digit (Char.to_lower c) = Char.is_digit c
  /\ Char.is_separator (Char.to_lower c) = Char.is_separator c
  /\ Ascii.eqb (Char.to_lower c) Char.newline = Ascii.eqb c Char.newline
  /\ Ascii.eqb (Char.to_lower c) Char.dot = Ascii.eqb c Char.dot
  /\ Ascii.eqb (Char.to_lower c) Char.underscore = Ascii.eqb c Char.underscore
  /\ Ascii.eqb (Char.to_lower c) Char.hyphen = Ascii.eqb c Char.hyphen
  /\ Ascii.eqb (Char.to_lower c) Char.at_sign = Ascii.eqb c Char.at_sign.
Proof. destruct c as [[] [] [] [] [] [] [] []]; vm_compute; repeat split. Qed.

Lemma to_lower_case c :
  Char.to_upper (Char.to_lower c) = Char.to_upper c
  /\ (Char.is_lower c = true -> Char.to_lower c = c)
  /\ (Char.is_upper c = true ->
        Char.is_lower (Char.to_lower c) = true
        /\ Char.to_upper (Char.to_lower c) = c)
  /\ (Char.is_lower c = false -> Char.is_upper c = false -> Char.to_lower c = c).
Proof.
  destruct c as [[] [] [] [] [] [] [] []]; vm_compute; repeat split; congruence.
Qed.

Lemma lower_rev_onto s :
  forall acc, Str.lower (Str.rev_onto acc s) = Str.rev_onto (Str.lower acc) (Str.lower s).
Proof. induction s as [|c r IH]; intros acc; [done|]. simpl. by rewrite IH. Qed.

Lemma lower_rev s : Str.lower (Str.rev s) = Str.rev (Str.lower s).
Proof. apply lower_rev_onto. Qed.

Lemma lower_drop_while p s :
  (forall c, p (Char.to_lower c) = p c) ->
  Str.drop_while p (Str.lower s) = Str.lower (Str.drop_while p s).
Proof.
  intros Hp. induction s as [|c r IH]; [done|]. simpl. rewrite Hp.
  by destruct (p c).
Qed.

Lemma lower_sub_trailing p s :
  (forall c, p (Char.to_lower c) = p c) ->
  Str.sub_trailing p (Str.lower s) = Str.lower (Str.sub_trailing p s).
Proof.
  intros Hp. unfold Str.sub_trailing, Str.rstrip. rewrite <- lower_rev.
  destruct (Str.rev s) as [|c r]; [done|]. cbn [Str.lower].
  destruct (to_lower_facts c) as (_ & _ & -> & _).
  destruct (Ascii.eqb c Char.newline).
  - rewrite lower_drop_while by done.
    change (String (Char.to_lower c) (Str.lower (Str.drop_while p r)))
      with (Str.lower (String c (Str.drop_while p r))).
    by rewrite lower_rev.
  - change (String (Char.to_lower c) (Str.lower r)) with (Str.lower (String c r)).
    by rewrite lower_drop_while, lower_rev.
Qed.

Lemma lower_strip_suffixes s :
  strip_suffixes (Str.lower s) = Str.lower (strip_suffixes s).
Proof.
  unfold strip_suffixes.
  rewrite !lower_sub_trailing; [done|intros c..]; apply to_lower_facts.
Qed.

Lemma lower_contains_char sep s :
  (forall c, Ascii.eqb (Char.to_lower c) sep = Ascii.eqb c sep) ->
  Str.contains_char sep (Str.lower s) = Str.contains_char sep s.
Proof.
  intros Hsep. induction s as [|c r IH]; [done|]. simpl. by rewrite Hsep, IH.
Qed.

Lemma lower_split sep s :
  (forall c, Ascii.eqb (Char.to_lower c) sep = Ascii.eqb c sep) ->
  Str.split sep (Str.lower s) = Str.lower <$> Str.split sep s.
Proof.
  intros Hsep. induction s as [|c r IH]; [done|]. simpl. rewrite Hsep, IH.
  destruct (Ascii.eqb c sep); [done|]. by destruct (Str.split sep r).
Qed.

Lemma title_from_lower s : forall b, Str.title_from b (Str.lower s) = Str.title_from b s.
Proof.
  induction s as [|c r IH]; intros b; [done|]. cbn [Str.lower Str.title_from].
  destruct (to_lower_case c) as (_ & Hl & Hu & Hn).
  destruct (Char.is_lower c) eqn:El.
  - rewrite (Hl eq_refl), El. by rewrite IH.
  - destruct (Char.is_upper c) eqn:Eu.
    + destruct (Hu eq_refl) as [-> ->]. by rewrite IH.
    + rewrite (Hn eq_refl eq_refl), El, Eu. by rewrite IH.
Qed.

Lemma upper_lower s : Str.upper (Str.lower s) = Str.upper s.
Proof.
  induction s as [|c r IH]; [done|]. simpl.
  destruct (to_lower_case c) as (-> & _). by rewrite IH.
Qed.

Lemma length_lower s : String.length (Str.lower s) = String.length s.
Proof. induction s as [|c r IH]; [done|]. simpl. by rewrite IH. Qed.

Lemma nonempty_lower s : Str.nonempty (Str.lower s) = Str.nonempty s.
Proof. by destruct s. Qed.

Lemma join_titled_lower parts : join_titled (Str.lower <$> parts) = join_titled parts.
Proof.
  unfold join_titled. f_equal.
  induction parts as [|p parts IH]; [done|].
  rewrite fmap_cons. cbn [List.filter]. rewrite nonempty_lower.
  destruct (Str.nonempty p); [|done].
  rewrite !fmap_cons, IH. unfold Str.title. by rewrite title_from_lower.
Qed.

Lemma dot_branch_lower parts : dot_branch (Str.lower <$> parts) = dot_branch parts.
Proof.
  destruct parts as [|first [|last [|p parts]]];
    try (unfold dot_branch at 1; rewrite join_titled_lower; done).
  rewrite !fmap_cons. cbn [dot_branch fmap list_fmap].
  rewrite length_lower, upper_lower. unfold Str.title.
  by rewrite !title_from_lower.
Qed.

Lemma classify_lower local_part : classify (Str.lower local_part) = classify local_part.
Proof.
  unfold classify. rewrite lower_strip_suffixes.
  rewrite !lower_contains_char by (intros c; apply to_lower_facts).
  rewrite !lower_split by (intros c; apply to_lower_facts).
  rewrite dot_branch_lower, !join_titled_lower.
  unfold Str.title. by rewrite title_from_lower.
Qed.

Lemma local_part_of_lower email :
  local_part_of (Str.lower email) = Str.lower (local_part_of email).
Proof.
  unfold local_part_of. rewrite lower_split by (intros c; apply to_lower_facts).
  by destruct (Str.split Char.at_sign email).
Qed.

(** X14.  The heuristic does not look at letter case: two addresses that
    differ only in the case of their letters get the same name. *)
Theorem name_ignores_letter_case (email1 email2 : string) :
  Str.lower email1 = Str.lower email2 ->
  _extract_name_from_email email1 = _extract_name_from_email email2.
Proof.
  assert (forall email,
            _extract_name_from_email email = _extract_name_from_email (Str.lower email))
    as Hlower.
  { intros email. unfold _extract_name_from_email.
    by rewrite nonempty_lower, local_part_of_lower, classify_lower. }
  intros Heq. by rewrite (Hlower email1), (Hlower email2), Heq.
Qed.

Lemma name_ignores_letter_case_witness :
  _extract_name_from_email "John.McDonald@Example.com"
  = _extract_name_from_email "john.mcdonald@example.COM".
Proof. apply name_ignores_letter_case. reflexivity. Defined.

(** ** Numeric suffixes *)

Lemma append_nil_r s : s +:+ "" = s.
Proof.
  induction s as [|c r IH]; [done|].
  change (String c (r +:+ "") = String c r). by rewrite IH.
Qed.

Lemma rev_append x y : Str.rev (x +:+ y) = Str.rev y +:+ Str.rev x.
Proof.
  induction x as [|c x IH]; [by rewrite append_nil_r|].
  change (String c x +:+ y) with (String c (x +:+ y)).
  by rewrite !rev_cons, IH, append_assoc.
Qed.

Lemma all_chars_append p x y :
  all_chars p (x +:+ y) = all_chars p x && all_chars p y.
Proof.
  induction x as [|c x IH]; [done|].
  change (String c x +:+ y) with (String c (x +:+ y)). simpl.
  by rewrite IH, andb_assoc.
Qed.

Lemma all_chars_rev p s : all_chars p (Str.rev s) = all_chars p s.
Proof.
  induction s as [|c r IH]; [done|].
  rewrite rev_cons, all_chars_append, IH. simpl.
  by rewrite andb_true_r, andb_comm.
Qed.

Lemma drop_while_all p x y :
  all_chars p x = true -> Str.drop_while p (x +:+ y) = Str.drop_while p y.
Proof.
  induction x as [|c x IH]; [done|].
  change (String c x +:+ y) with (String c (x +:+ y)). simpl.
  intros [-> Hx]%andb_true_iff. by apply IH.
Qed.

Lemma sub_trailing_no_newline p s :
  last_is (λ c, Ascii.eqb c Char.newline) s = false ->
  Str.sub_trailing p s = Str.rstrip p s.
Proof.
  unfold last_is, Str.sub_trailing, Str.rstrip.
  destruct (Str.rev s) as [|c r]; [done|]. by intros ->.
Qed.

Lemma sub_trailing_suffix p s d :
  p Char.newline = false ->
  all_chars p d = true ->
  last_is (λ c, Ascii.eqb c Char.newline) s = false ->
  Str.sub_trailing p (s +:+ d) = Str.sub_trailing p s.
Proof.
  intros Hnl Hd Hs. destruct d as [|c d]; [by rewrite append_nil_r|].
  rewrite (sub_trailing_no_newline p s Hs).
  assert (last_is (λ c, Ascii.eqb c Char.newline) (s +:+ String c d) = false) as Hsd.
  { unfold last_is. rewrite rev_append.
    pose proof (all_chars_rev p (String c d)) as Hrev. rewrite Hd in Hrev.
    destruct (Str.rev (String c d)) as [|c0 r0] eqn:E; [by apply rev_empty in E|].
    simpl in Hrev. apply andb_true_iff in Hrev as [Hc0 _].
    change (String c0 r0 +:+ Str.rev s) with (String c0 (r0 +:+ Str.rev s)).
    cbv iota. destruct (Ascii.eqb_spec c0 Char.newline) as [->|]; [congruence|done]. }
  rewrite (sub_trailing_no_newline p _ Hsd). unfold Str.rstrip.
  rewrite rev_append, drop_while_all; [done|]. by rewrite all_chars_rev.
Qed.

(** X15.  A numeric suffix does not change the name: for a local part
    that does not end in a line feed, appending digits leaves the result of
    the classifier as it is. *)
Theorem numeric_suffix_is_ignored (local_part digits : string) :
  all_chars Char.is_digit digits = true ->
  last_is (λ c, Ascii.eqb c Char.newline) local_part = false ->
  classify (local_part +:+ digits) = classify local_part.
Proof.
  intros Hd Hl. unfold classify, strip_suffixes.
  by rewrite sub_trailing_suffix.
Qed.

Lemma numeric_suffix_is_ignored_witness :
  classify "j.smith42" = classify "j.smith" /\ classify "jsmith2024" = classify "jsmith".
Proof.
  split.
  - exact (numeric_suffix_is_ignored "j.smith" "42" eq_refl eq_refl).
  - exact (numeric_suffix_is_ignored "jsmith" "2024" eq_refl eq_refl).
Defined.

(** ** Empty names *)

(** X16.  A built attendee has an empty display name exactly when the
    payload states no name in [displayName], [name] or [cn] and the two
    substitutions that strip trailing digits and separators leave nothing
    of the local part of the address. *)
Theorem display_name_is_empty_only_for_stripped_addresses
    (attendee : gmap string string) (info : AttendeeInfo) :
  resolve_attendee attendee = Some info ->
  display_name info = ""
  <-> explicit_name attendee = ""
      /\ strip_suffixes (local_part_of (get_str attendee "email")) = "".
Proof.
  intros Hres. rewrite (display_name_empty_iff attendee info Hres).
  unfold explicit_name.
  destruct (get_str attendee "displayName"); simpl; [|split; intros; by intuition].
  destruct (get_str attendee "name"); simpl; [|split; intros; by intuition].
  tauto.
Qed.

Lemma display_name_is_empty_only_for_stripped_addresses_witness :
  let attendee : gmap string string := {[ "email" := "_42@x.com" ]} in
  let info := {| name := ""; email := "_42@x.com"; display_name := "" |} in
  display_name info = ""
  <-> explicit_name attendee = ""
      /\ strip_suffixes (local_part_of (get_str attendee "email")) = "".
Proof.
  intros attendee info.
  apply (display_name_is_empty_only_for_stripped_addresses attendee info).
  by vm_compute.
Defined.

(** * Properties of the directory look-up *)







(** * Properties of the names found in a description *)

Lemma add_unique_names_spec (names : list string) :
  forall acc,
    NoDup acc ->
    (forall n, n ∈ acc -> n ∉ exclude_words) ->
    let result := fold_left add_unique_name names acc in
    NoDup result
    /\ (forall n, n ∈ result <-> n ∈ acc \/ (n ∈ names /\ n ∉ exclude_words))
    /\ exists kept, result = acc ++ kept /\ kept `sublist_of` names.
Proof.
  induction names as [|x names IH]; intros acc Hnd Hex; cbn zeta.
  - simpl. split; [done|]. split.
    + intros n. rewrite elem_of_nil. tauto.
    + exists []. by rewrite app_nil_r.
  - cbn [fold_left]. unfold add_unique_name at 2 4 6.
    destruct (bool_decide_reflect (x ∉ acc)) as [Hx|Hx];
      [destruct (bool_decide_reflect (x ∉ exclude_words)) as [Hw|Hw]|]; cbn [andb].
    + destruct (IH (acc ++ [x])) as (Hnd' & Hmem & kept & Hres & Hsub).
      { apply NoDup_app. split_and!; [done| |apply NoDup_singleton].
        intros n Hn ->%list_elem_of_singleton. done. }
      { intros n [Hn| ->%list_elem_of_singleton]%elem_of_app; auto. }
      split; [done|]. split.
      * intros n. rewrite Hmem, elem_of_app, list_elem_of_singleton, elem_of_cons.
        split; [intros [[?| ->]|[? ?]]; auto|].
        intros [?|[[-> |?] ?]]; auto.
      * exists (x :: kept). rewrite Hres, <- app_assoc. split; [done|].
        by apply sublist_skip.
    + destruct (IH acc Hnd Hex) as (Hnd' & Hmem & kept & Hres & Hsub).
      split; [done|]. split.
      * intros n. rewrite Hmem, elem_of_cons.
        split; [intros [?|[? ?]]; auto|]. intros [?|[[-> |?] ?]]; auto.
        destruct Hw. done.
      * exists kept. split; [done|]. by apply sublist_cons.
    + destruct (IH acc Hnd Hex) as (Hnd' & Hmem & kept & Hres & Hsub).
      apply dec_stable in Hx.
      split; [done|]. split.
      * intros n. rewrite Hmem, elem_of_cons.
        split; [intros [?|[? ?]]; auto|]. intros [?|[[-> |?] ?]]; auto.
      * exists kept. split; [done|]. by apply sublist_cons.
Qed.

Lemma unique_names_member (names : list string) (n : string) :
  n ∈ fold_left add_unique_name names [] <-> n ∈ names /\ n ∉ exclude_words.
Proof.
  destruct (add_unique_names_spec names [] ltac:(constructor)) as (_ & Hmem & _).
  { intros k Hk. by apply elem_of_nil in Hk. }
  rewrite Hmem, elem_of_nil. tauto.
Qed.

(** The names kept stand in the order in which each occurs first. *)
Lemma unique_names_order (names : list string) (n1 n2 : string) :
  [n1; n2] `sublist_of` fold_left add_unique_name names [] ->
  index_of n1 names < index_of n2 names.
Proof.
  revert n1 n2. induction names as [|x names IH] using rev_ind; intros n1 n2.
  { intros Hsub. by apply sublist_nil_r in Hsub. }
  rewrite fold_left_app. cbn [fold_left].
  pose proof (unique_names_member names) as Hmem.
  set (kept := fold_left add_unique_name names []) in *.
  unfold add_unique_name.
  destruct (bool_decide_reflect (x ∉ kept)) as [Hx|Hx];
    [destruct (bool_decide_reflect (x ∉ exclude_words)) as [Hw|Hw]|]; cbn [andb].
  - intros (k1 & k2 & Hk & Hk1 & Hk2)%sublist_app_r.
    apply sublist_cons_r in Hk2 as [->%sublist_nil_r | (k' & -> & ->%sublist_nil_r)].
    + rewrite app_nil_r in Hk. subst k1.
      destruct (sublist_pair_elem _ _ _ Hk1) as [[H1 _]%Hmem [H2 _]%Hmem].
      rewrite !index_of_app_l by done. by apply IH.
    + destruct k1 as [|y [|z k1]]; simplify_eq/=; [|by destruct k1].
      apply singleton_sublist_l, Hmem in Hk1 as [H1 _].
      assert (x ∉ names) as Hfresh by (intros Hin; apply Hx, Hmem; by split).
      rewrite index_of_app_l, index_of_fresh by done. by apply index_of_lt.
  - intros Hsub.
    destruct (sublist_pair_elem _ _ _ Hsub) as [[H1 _]%Hmem [H2 _]%Hmem].
    rewrite !index_of_app_l by done. by apply IH.
  - intros Hsub.
    destruct (sublist_pair_elem _ _ _ Hsub) as [[H1 _]%Hmem [H2 _]%Hmem].
    rewrite !index_of_app_l by done. by apply IH.
Qed.

(** X18.  The names found in a description come out without duplicates
    and without any of the seven common words; they are exactly the
    trimmed pieces of the matches that are not such a word, and they stand
    in the order of their first occurrence among the pieces: of two names
    returned, the one that stands first is the one that occurs first. *)
Theorem person_names_are_unique_and_filtered
    (findall : string -> string -> list string) (text : string) :
  let pieces := (patterns ≫= (λ pattern, findall pattern text)) ≫= names_of_match in
  let result := extract_person_names_basic findall text in
  NoDup result
  /\ (forall n, n ∈ result <-> n ∈ pieces /\ n ∉ exclude_words)
  /\ result `sublist_of` pieces
  /\ (forall i j n1 n2, i < j -> result !! i = Some n1 -> result !! j = Some n2 ->
        index_of n1 pieces < index_of n2 pieces).
Proof.
  intros pieces result.
  destruct (add_unique_names_spec pieces [] ltac:(constructor))
    as (Hnd & Hmem & kept & Hres & Hsub).
  { intros n Hn. by apply elem_of_nil in Hn. }
  split; [done|]. split; [|split].
  - intros n. unfold result, extract_person_names_basic. fold pieces.
    rewrite Hmem, elem_of_nil. tauto.
  - unfold result, extract_person_names_basic. fold pieces. by rewrite Hres.
  - intros i j n1 n2 Hij H1 H2. apply unique_names_order.
    by eapply lookup_lt_sublist.
Qed.

Lemma person_names_are_unique_and_filtered_witness :
  let findall := λ pattern (_ : string),
    if String.eqb pattern "\bwith\s+([A-Z][a-z]+(?:\s+[A-Z][a-z]+)*)"
    then ["Ann Lee"; "Team"]
    else if String.prefix "\bAttendees" pattern then ["Ann Lee, Bob Ray"] else [] in
  extract_person_names_basic findall "Sync with Ann Lee" = ["Ann Lee"; "Bob Ray"]
  /\ "Team" ∉ extract_person_names_basic findall "Sync with Ann Lee".
Proof.
  intros findall. split; [reflexivity|].
  destruct (person_names_are_unique_and_filtered findall "Sync with Ann Lee")
    as (_ & Hmem & _).
  intros [_ Hw]%Hmem. apply Hw. apply list_elem_of_lookup. by exists 6.
Defined.

(** * From the payload to the report *)

Lemma process_meeting_attendees extract (ev : calendar_event) :
  attendees (process_meeting extract ev)
  = omap resolve_attendee (default [] (ev_attendees (ce_people ev))).
Proof.
  unfold process_meeting, extract_attendee_info.
  destruct (extract _ _) as [extracted_title person_names].
  destruct (resolve_organizer _) as [organizer_name organizer_email].
  cbn. by rewrite fold_append_resolved.
Qed.

(** X19.  A meeting built from a calendar event keeps its deprecated
    fields in step with the new ones: [attendee_emails] is the list of the
    attendees' addresses, which are the non-empty addresses of the payload
    in order, it is what [get_attendee_emails] returns and it is as long as
    the list of display names; [organizer] is the organizer's e-mail. *)
Theorem processed_meeting_is_consistent
    (extract : string -> string -> string * list string) (ev : calendar_event) :
  let m := process_meeting extract ev in
  attendee_emails m = email <$> attendees m
  /\ attendee_emails m
     = List.filter Str.nonempty
         ((λ a, get_str a "email") <$> default [] (ev_attendees (ce_people ev)))
  /\ get_attendee_emails m = attendee_emails m
  /\ length (get_attendee_display_names m) = length (attendee_emails m)
  /\ organizer m = organizer_email m.
Proof.
  intros m.
  assert (attendee_emails m = List.filter Str.nonempty (email <$> attendees m)) as Hdef.
  { subst m. unfold process_meeting.
    destruct (extract _ _) as [extracted_title person_names].
    by destruct (extract_attendee_info _) as [[infos on] oe]. }
  assert (List.filter Str.nonempty (email <$> attendees m) = email <$> attendees m) as Hall.
  { subst m. rewrite process_meeting_attendees.
    induction (default [] (ev_attendees (ce_people ev))) as [|a l IH]; [done|].
    cbn [omap list_omap]. fold (omap resolve_attendee l).
    destruct (resolve_attendee a) as [info|] eqn:Hr; [|done].
    apply resolve_attendee_shape in Hr as (He & Hemail & _).
    rewrite fmap_cons. cbn [List.filter]. rewrite Hemail.
    apply nonempty_true in He. by rewrite He, IH. }
  split_and!.
  - by rewrite Hdef.
  - rewrite Hdef, Hall. subst m. rewrite process_meeting_attendees.
    apply emails_of_resolved.
  - unfold get_attendee_emails. by rewrite Hdef.
  - unfold get_attendee_display_names. by rewrite Hdef, Hall, !length_fmap.
  - subst m. unfold process_meeting.
    destruct (extract _ _) as [extracted_title person_names].
    destruct (extract_attendee_info _) as [[infos on] oe].
    unfold new_MeetingInfo. cbn. by destruct oe.
Qed.

Lemma filter_nonempty_twice (l : list string) :
  filter (λ e, e ≠ "") (List.filter Str.nonempty l) = List.filter Str.nonempty l.
Proof.
  induction l as [|x l IH]; [done|]. cbn [List.filter].
  destruct (Str.nonempty x) eqn:Hx; [|done].
  apply nonempty_true in Hx. by rewrite filter_cons, decide_True, IH.
Qed.

Lemma encounter_order_of_events extract (events : list calendar_event) :
  encounter_order (process_meeting extract <$> events) = events ≫= payload_emails.
Proof.
  unfold encounter_order. induction events as [|ev events IH]; [done|].
  rewrite fmap_cons, observations_cons, fmap_app, filter_app, IH.
  rewrite process_meeting_attendees, emails_of_resolved, filter_nonempty_twice. done.
Qed.

(** X20.  When the day that [get_events_for_day] hands back was built from
    the events the calendar listed, one meeting per event made by
    [process_meeting] and [total_events] their number, the report holds in
    [all_attendee_emails] exactly the non-empty addresses of the attendee
    records of the payload, each once and in the order in which the payload
    lists them first, counts them in [unique_attendees] and gives the
    number of events as [total_meetings]. *)
Theorem report_lists_the_payload_addresses
    (extract : string -> string -> string * list string)
    (target_date : string) (day_events : DayEventsInfo)
    (events : list calendar_event) :
  let report := get_attendee_info_for_day target_date day_events in
  meetings day_events = process_meeting extract <$> events ->
  total_events day_events = length events ->
  events <> [] ->
  exists emails : list string,
    dict_get "all_attendee_emails" report = Some (PList (PStr <$> emails))
    /\ dict_get "unique_attendees" report = Some (PInt (length emails))
    /\ dict_get "total_meetings" report = Some (PInt (length events))
    /\ NoDup emails
    /\ (forall e, e ∈ emails
          <-> e <> ""
              /\ exists ev attendee,
                   ev ∈ events
                   /\ attendee ∈ default [] (ev_attendees (ce_people ev))
                   /\ get_str attendee "email" = e)
    /\ (forall i j e1 e2, i < j -> emails !! i = Some e1 -> emails !! j = Some e2 ->
          index_of e1 (events ≫= payload_emails)
          < index_of e2 (events ≫= payload_emails)).
Proof.
  intros report Hmeet Htotal Hev.
  set (ms := process_meeting extract <$> events).
  exists (dict_keys (attendee_frequency (aggregate ms))).
  destruct (frequency_keys ms) as [Hnd Hmem].
  assert (report
          = get_attendee_info_for_day target_date (day_of target_date ms [])) as ->.
  { subst report. unfold get_attendee_info_for_day, day_of.
    cbn [total_events meetings]. rewrite Htotal, Hmeet. fold ms.
    by rewrite (length_fmap (process_meeting extract) events : length ms = length events). }
  assert (length ms = length events) as Hlen by apply length_fmap.
  assert (ms <> []) as Hms by (subst ms; by destruct events).
  split_and!.
  - by destruct ms.
  - destruct ms; [done|]. cbn. unfold dict_keys. by rewrite length_fmap.
  - destruct ms; [done|]. cbn. by rewrite <- Hlen.
  - done.
  - intros e. rewrite Hmem. subst ms. rewrite encounter_order_of_events.
    rewrite list_elem_of_bind. unfold payload_emails. split.
    + intros (ev & Hin & Hevin).
      apply list_elem_of_In, filter_In in Hin as [Hin He].
      apply nonempty_true in He. split; [done|].
      apply list_elem_of_In, list_elem_of_fmap in Hin as (a & -> & Ha). eauto.
    + intros [He (ev & a & Hevin & Ha & <-)]. exists ev. split; [|done].
      apply list_elem_of_In, filter_In. split.
      * apply list_elem_of_In. by apply (list_elem_of_fmap_2 (λ a, get_str a "email")).
      * by apply nonempty_true.
  - intros i j e1 e2 Hij H1 H2. rewrite <- (encounter_order_of_events extract).
    fold ms. rewrite aggregate_frequency in H1, H2.
    apply (tally_keys_order (observations ms)).
    by eapply lookup_lt_sublist.
Qed.

Lemma report_lists_the_payload_addresses_witness :
  let people := {| ev_organizer := None;
                   ev_attendees := Some [ {[ "email" := "b@x.com" ]};
                                          {[ "displayName" := "Nobody" ]};
                                          {[ "email" := "a@x.com" ]};
                                          {[ "email" := "b@x.com" ]} ] |} in
  let ev := {| ce_summary := Some "Sync"; ce_description := None; ce_id := None;
               ce_location := None; ce_start := None; ce_end := None;
               ce_people := people |} in
  let extract := λ (_ title : string), (title, @nil string) in
  let report :=
    get_attendee_info_for_day "2024-01-15"
      (day_of "2024-01-15" [process_meeting extract ev] []) in
  dict_get "all_attendee_emails" report = Some (PList [PStr "b@x.com"; PStr "a@x.com"])
  /\ exists emails : list string,
       dict_get "unique_attendees" report = Some (PInt (length emails))
       /\ dict_get "total_meetings" report = Some (PInt 1)
       /\ NoDup emails.
Proof.
  intros people ev extract report. split; [by vm_compute|].
  destruct (report_lists_the_payload_addresses extract "2024-01-15"
              (day_of "2024-01-15" [process_meeting extract ev] []) [ev]
              eq_refl eq_refl ltac:(discriminate))
    as (emails & _ & Hn & Ht & Hnd & _).
  exists emails. by split_and!.
Defined.

(** * The attendee tool *)

(** X21.  The attendee tool reads keys that the report never has.
    Whatever the calendar holds for the day, its text is the heading, a
    count of unique attendees that is always 0, and the number of
    meetings; it never lists an attendee or a meeting. *)
Theorem attendee_tool_never_lists_anyone
    (get_events_for_day : string -> DayEventsInfo) (date_input : string) :
  let normalized_date :=
    Str.strip Char.is_quote (Str.strip Char.is_space date_input) in
  get_attendees_for_day get_events_for_day date_input
  = Some ("Attendee Information for " +:+ normalized_date +:+ ":" +:+ nl
          +:+ "Total Unique Attendees: 0" +:+ nl
          +:+ "Total Meetings: "
          +:+ pretty (total_events (get_events_for_day normalized_date))
          +:+ nl +:+ nl).
Proof.
  intros normalized_date. unfold get_attendees_for_day. fold normalized_date.
  unfold get_attendee_info_for_day.
  destruct (total_events (get_events_for_day normalized_date)) as [|n]; reflexivity.
Qed.
